(** * Kraken step definitions ([src/steps/more.ts]): a shallow embedding

    The step handlers of [more.ts] drive a browser through a WebdriverIO
    session.  The handlers are embedded as programs of a small monad [M]
    (state, errors and a trace of the calls made to the outside world); the
    browser is a family of page snapshots indexed by a logical clock, so a
    page may change between any two driver calls. *)

From Stdlib Require Import ZArith Lia Ascii.
From stdpp Require Import base gmap strings list.

(** ** JavaScript strings and arrays *)

Module Js.

(** The double quote character, and a string wrapped in double quotes as
    the template literals of the messages do. *)
Definition dquote : string := String (ascii_of_nat 34) EmptyString.
Definition quoted (s : string) : string := dquote +:+ s +:+ dquote.

(** [s.split(sep)] for a one-character separator: the pieces between the
    occurrences of [sep], empty pieces included. *)
Fixpoint split (sep : ascii) (s : string) : list string :=
  match s with
  | EmptyString => [EmptyString]
  | String c r =>
      if Ascii.eqb c sep then EmptyString :: split sep r
      else match split sep r with
           | [] => [String c EmptyString]
           | w :: ws => String c w :: ws
           end
  end.

(** [s.replace(c, '')] for a one-character string pattern [c]: only the
    first occurrence is removed. *)
Fixpoint remove_first (c : ascii) (s : string) : string :=
  match s with
  | EmptyString => EmptyString
  | String d r => if Ascii.eqb d c then r else String d (remove_first c r)
  end.

(** [hay.includes(needle)] on strings. *)
Fixpoint includes (hay needle : string) : bool :=
  String.prefix needle hay
  || match hay with
     | EmptyString => false
     | String _ r => includes r needle
     end.

(** [arr.includes(x)] on an array of strings. *)
Definition array_includes (arr : list string) (x : string) : bool :=
  bool_decide (x ∈ arr).

(** Truthiness of a string: only the empty string is falsy. *)
Definition truthy (s : string) : bool :=
  match s with EmptyString => false | String _ _ => true end.

(** [arr[0]]: [undefined] on an empty array; [split] never returns one. *)
Definition first (arr : list string) : string :=
  match arr with [] => "undefined" | x :: _ => x end.

End Js.

(** ** Node's [path] module (POSIX flavour) *)

Module Path.

Definition slash : ascii := ascii_of_nat 47.
Definition is_slash (c : ascii) : bool := Ascii.eqb c slash.

Fixpoint chars (s : string) : list ascii :=
  match s with
  | EmptyString => []
  | String c r => c :: chars r
  end.

Fixpoint of_chars (l : list ascii) : string :=
  match l with
  | [] => EmptyString
  | c :: r => String c (of_chars r)
  end.

Fixpoint drop_while (f : ascii -> bool) (l : list ascii) : list ascii :=
  match l with
  | [] => []
  | c :: r => if f c then drop_while f r else l
  end.

Fixpoint take_while (f : ascii -> bool) (l : list ascii) : list ascii :=
  match l with
  | [] => []
  | c :: r => if f c then c :: take_while f r else []
  end.

(** [path.basename(p)]: trailing slashes are ignored, then the part after
    the last remaining slash is returned. *)
Definition basename (p : string) : string :=
  let r := drop_while is_slash (rev (chars p)) in
  of_chars (rev (take_while (fun c => negb (is_slash c)) r)).

(** [path.dirname(p)]: scanning from the end down to index 1, the first
    slash met after a non-slash character ends the directory part; with no
    such slash the result is ["/"] for a rooted path and ["."] otherwise. *)
Fixpoint dirname_scan (rest : list ascii) (matched : bool) : option (list ascii) :=
  match rest with
  | [] => None
  | [_] => None
  | c :: r =>
      if is_slash c then
        if matched then dirname_scan r matched else Some r
      else dirname_scan r false
  end.

Definition dirname (p : string) : string :=
  match chars p with
  | [] => "."
  | c0 :: _ =>
      match dirname_scan (rev (chars p)) true with
      | None => if is_slash c0 then "/" else "."
      | Some d =>
          if is_slash c0 && bool_decide (length d = 1) then "//"
          else of_chars (rev d)
      end
  end.

End Path.

(** ** The browser and the world outside the handlers *)

(** An element handle is an opaque reference to a node of the page. *)
Definition Node := nat.

(** One snapshot of the page, as the driver answers about it.  [page_query]
    is the selector engine: the matches of a selector in document order,
    below a root element or in the whole document ([None]).  The selector
    [".."] asks for the parent, as in [element.$('..')]. *)
Record Page := {
  page_url : string;
  page_query : option Node -> string -> list Node;
  page_tag : Node -> string;
  page_attr : Node -> string -> option string;
  page_text : Node -> string;
  page_displayed : Node -> bool;
  page_clickable : Node -> bool
}.

(** What a handler is run in: the page at every instant of a logical clock
    that advances with each driver call, the number of further samples the
    host library takes of a condition within a budget in milliseconds, the
    two ambient inputs of the screenshot step, and the message that
    [assert] generates for two strings that are not strictly equal. *)
Record Env := {
  timeline : nat -> Page;
  polls : Z -> nat;
  env_VERSION : option string;
  featureLocation : string;
  strictEqualMessage : string -> string -> string
}.

(** The mutable part: the clock and the directories that exist. *)
Record State := {
  clock : nat;
  dirs : gset string
}.

(** The argument of [driver.keys]: a string, an array of strings, or some
    other object. *)
Inductive KeysArg :=
| KString (s : string)
| KArray (l : list string)
| KObject (name : string).

(** Calls to the outside world, each with the reply it got. *)
Inductive Event :=
| EFind (root : option Node) (sel : string) (reply : option Node)
| EFindAll (root : option Node) (sel : string) (reply : list Node)
| EGetTagName (h : Node) (reply : string)
| EGetAttribute (h : Node) (name : string) (reply : option string)
| EGetText (h : Node) (reply : string)
| EGetUrl (reply : string)
| EWaitForDisplayed (h : Node) (timeout : Z) (reply : bool)
| EWaitForClickable (h : Node) (timeout : Z) (reply : bool)
| EClick (h : Node)
| EKeys (keys : KeysArg)
| ESetValue (h : Node) (text : string)
| ESaveScreenshot (path : string)
| EExistsSync (path : string) (reply : bool)
| EMkdirSync (path : string)
| EConsoleLog (msg : string).

(** The ways a handler can fail.  [Diverged] is not a JavaScript error: it
    marks a loop of the model that ran out of fuel. *)
Inductive Error :=
| Thrown (msg : string)
| AssertionError (msg : string)
| TypeError (msg : string)
| WaitUntilTimeout (msg : string)
| DisplayedTimeout (h : Node) (timeout : Z)
| ClickableTimeout (h : Node) (timeout : Z)
| Diverged.

Inductive Result (A : Type) :=
| Ok (a : A)
| Err (e : Error).
Arguments Ok {A} a.
Arguments Err {A} e.

Record Outcome (A : Type) := {
  result : Result A;
  final : State;
  trace : list Event
}.
Arguments result {A} o.
Arguments final {A} o.
Arguments trace {A} o.

(** ** The monad of handlers *)

Definition M (A : Type) : Type := Env -> State -> Outcome A.

Definition ret {A} (a : A) : M A :=
  fun _ s => {| result := Ok a; final := s; trace := [] |}.

Definition throw {A} (e : Error) : M A :=
  fun _ s => {| result := Err e; final := s; trace := [] |}.

Definition bind {A B} (m : M A) (f : A -> M B) : M B :=
  fun env s =>
    let o := m env s in
    match result o with
    | Ok a =>
        let o' := f a env (final o) in
        {| result := result o'; final := final o'; trace := trace o ++ trace o' |}
    | Err e => {| result := Err e; final := final o; trace := trace o |}
    end.

Notation "x <- m ;; k" := (bind m (fun x => k))
  (at level 100, m at next level, right associativity).
Notation "m ;;; k" := (bind m (fun _ => k))
  (at level 100, right associativity).

(** The page as it is now. *)
Definition now : M Page :=
  fun env s => {| result := Ok (timeline env (clock s)); final := s; trace := [] |}.

(** Time passes. *)
Definition advance : M unit :=
  fun _ s => {| result := Ok tt;
                final := {| clock := S (clock s); dirs := dirs s |};
                trace := [] |}.

Definition emit (e : Event) : M unit :=
  fun _ s => {| result := Ok tt; final := s; trace := [e] |}.

Definition budget (timeout : Z) : M nat :=
  fun env s => {| result := Ok (polls env timeout); final := s; trace := [] |}.

(** ** The driver *)

(** Modelled from the spec: the WebdriverIO session and element API is not
    part of the repository; these follow the interface of section 6.  A
    lookup that matches nothing yields [null], which is what the test
    [parent && ...] of [closest] and [find]'s own [null] provide for. *)
Module Driver.

(** [driver.$(sel)] and [element.$(sel)]: the first match. *)
Definition find (root : option Node) (sel : string) : M (option Node) :=
  p <- now ;;
  let r := head (page_query p root sel) in
  advance ;;; emit (EFind root sel r) ;;; ret r.

(** [element.$$(sel)]: every match. *)
Definition findAll (root : option Node) (sel : string) : M (list Node) :=
  p <- now ;;
  let r := page_query p root sel in
  advance ;;; emit (EFindAll root sel r) ;;; ret r.

Definition getTagName (h : Node) : M string :=
  p <- now ;;
  let r := page_tag p h in
  advance ;;; emit (EGetTagName h r) ;;; ret r.

Definition getAttribute (h : Node) (name : string) : M (option string) :=
  p <- now ;;
  let r := page_attr p h name in
  advance ;;; emit (EGetAttribute h name r) ;;; ret r.

Definition getText (h : Node) : M string :=
  p <- now ;;
  let r := page_text p h in
  advance ;;; emit (EGetText h r) ;;; ret r.

Definition getUrl : M string :=
  p <- now ;;
  let r := page_url p in
  advance ;;; emit (EGetUrl r) ;;; ret r.

(** Sample an observation of the page now and at most [n] more times,
    until it holds. *)
Fixpoint sample (n : nat) (obs : Page -> bool) : M bool :=
  p <- now ;;
  advance ;;;
  if obs p then ret true
  else match n with
       | 0 => ret false
       | S n' => sample n' obs
       end.

Definition waitForDisplayed (h : Node) (timeout : Z) : M unit :=
  n <- budget timeout ;;
  ok <- sample n (fun p => page_displayed p h) ;;
  emit (EWaitForDisplayed h timeout ok) ;;;
  if ok then ret tt else throw (DisplayedTimeout h timeout).

Definition waitForClickable (h : Node) (timeout : Z) : M unit :=
  n <- budget timeout ;;
  ok <- sample n (fun p => page_clickable p h) ;;
  emit (EWaitForClickable h timeout ok) ;;;
  if ok then ret tt else throw (ClickableTimeout h timeout).

Definition click (h : Node) : M unit :=
  advance ;;; emit (EClick h).

Definition keys (k : KeysArg) : M unit :=
  advance ;;; emit (EKeys k).

Definition setValue (h : Node) (text : string) : M unit :=
  advance ;;; emit (ESetValue h text).

Definition saveScreenshot (path : string) : M unit :=
  advance ;;; emit (ESaveScreenshot path).

(** [driver.waitUntil(cond, { timeout, timeoutMsg })]: evaluate the
    condition now and at most [n] more times until it is truthy; when it
    never is, fail with the message given. *)
Fixpoint waitUntil_loop (n : nat) (cond : M bool) (timeoutMsg : string) : M unit :=
  ok <- cond ;;
  if ok then ret tt
  else match n with
       | 0 => throw (WaitUntilTimeout timeoutMsg)
       | S n' => waitUntil_loop n' cond timeoutMsg
       end.

Definition waitUntil (cond : M bool) (timeout : Z) (timeoutMsg : string) : M unit :=
  n <- budget timeout ;;
  waitUntil_loop n cond timeoutMsg.

End Driver.

(** ** The rest of the host: [fs], [console], [assert], [process.env] *)

Definition existsSync (path : string) : M bool :=
  fun _ s =>
    let r := bool_decide (path ∈ dirs s) in
    {| result := Ok r; final := s; trace := [EExistsSync path r] |}.

(** The directories above [path], nearest first: [path.dirname] again and
    again, until it gives ["."], ["/"] or nothing new. *)
Fixpoint parent_dirs (fuel : nat) (path : string) : list string :=
  match fuel with
  | 0 => []
  | S fuel' =>
      let d := Path.dirname path in
      if String.eqb d "." || String.eqb d "/" || String.eqb d path then []
      else d :: parent_dirs fuel' d
  end.

(** What [fs.mkdirSync(path, { recursive: true })] makes sure exists:
    [path] and every directory above it. *)
Definition made_dirs (path : string) : list string :=
  path :: parent_dirs (String.length path) path.

(** [fs.mkdirSync(path, { recursive: true })]: the missing parents are
    created as well, and a directory that exists is left alone. *)
Definition mkdirSync (path : string) : M unit :=
  fun _ s =>
    {| result := Ok tt;
       final := {| clock := clock s;
                   dirs := list_to_set (made_dirs path) ∪ dirs s |};
       trace := [EMkdirSync path] |}.

Definition console_log (msg : string) : M unit := emit (EConsoleLog msg).

(** [assert.ok(value, message)] on a value that is an element handle or
    [null], and on a boolean. *)
Definition assert_ok_handle (v : option Node) (msg : string) : M Node :=
  match v with
  | Some h => ret h
  | None => throw (AssertionError msg)
  end.

Definition assert_ok (v : bool) (msg : string) : M unit :=
  if v then ret tt else throw (AssertionError msg).

(** [assert.strictEqual(actual, expected)] on strings; no message is
    passed, so the text of the error is the one [assert] generates from
    the two values, [strictEqualMessage]. *)
Definition assert_strictEqual (actual expected : string) : M unit :=
  fun env s =>
    if String.eqb actual expected then ret tt env s
    else throw (AssertionError (strictEqualMessage env actual expected)) env s.

(** A method call on a value that may be [null]. *)
Definition method_on (v : option Node) (method : string) : M Node :=
  match v with
  | Some h => ret h
  | None => throw (TypeError ("Cannot read properties of null (reading '" +:+ method +:+ "')"))
  end.

Definition process_env_VERSION : M (option string) :=
  fun env s => {| result := Ok (env_VERSION env); final := s; trace := [] |}.

Definition this_featureLocation : M string :=
  fun env s => {| result := Ok (featureLocation env); final := s; trace := [] |}.

(** ** [closest] and [find] *)

(** The class name an ancestor's tokens are compared with:
    [selector.replace('.', '')]. *)
Definition class_name (selector : string) : string :=
  Js.remove_first "." selector.

(** The test of line 19 on the value of the [class] attribute:
    [classAttr && classAttr.split(' ').includes(selector.replace('.', ''))]. *)
Definition class_matches (classAttr : option string) (selector : string) : bool :=
  match classAttr with
  | None => false
  | Some c => Js.truthy c && Js.array_includes (Js.split " " c) (class_name selector)
  end.

(** The [while] loop of [closest]; one unit of fuel per iteration. *)
Fixpoint closest_loop (fuel : nat) (parent : option Node) (selector : string)
  : M (option Node) :=
  match parent with
  | None => ret None
  | Some p =>
      match fuel with
      | 0 => throw Diverged
      | S fuel' =>
          tag <- Driver.getTagName p ;;
          if String.eqb tag "html" then ret None
          else
            classAttr <- Driver.getAttribute p "class" ;;
            if class_matches classAttr selector then ret (Some p)
            else
              parent' <- Driver.find (Some p) ".." ;;
              closest_loop fuel' parent' selector
      end
  end.

Definition closest (fuel : nat) (element : option Node) (selector : string)
  : M (option Node) :=
  e <- method_on element "$" ;;
  parent <- Driver.find (Some e) ".." ;;
  closest_loop fuel parent selector.

Definition find (element : Node) (selector : string) : M (option Node) :=
  children <- Driver.findAll (Some element) selector ;;
  match children with
  | c :: _ => ret (Some c)
  | [] => ret None
  end.

(** ** The step handlers *)

(** JavaScript values that reach [driver.keys]. *)
Inductive JsValue :=
| VUndefined
| VString (s : string)
| VObject (name : string).

Definition value_truthy (v : JsValue) : bool :=
  match v with
  | VUndefined => false
  | VString s => Js.truthy s
  | VObject _ => true
  end.

Definition keys_of_value (v : JsValue) : KeysArg :=
  match v with
  | VUndefined => KObject "undefined"
  | VString s => KString s
  | VObject name => KObject name
  end.

(** The properties every object literal inherits from [Object.prototype];
    each is a function or an object. *)
Definition object_prototype : list string :=
  [ "constructor"; "__defineGetter__"; "__defineSetter__"; "hasOwnProperty";
    "__lookupGetter__"; "__lookupSetter__"; "isPrototypeOf";
    "propertyIsEnumerable"; "toString"; "valueOf"; "__proto__";
    "toLocaleString" ].

(** [obj[key]] on an object literal with string values: the own property,
    else the inherited one, else [undefined]. *)
Definition get_property (own : gmap string string) (key : string) : JsValue :=
  match own !! key with
  | Some v => VString v
  | None => if bool_decide (key ∈ object_prototype) then VObject key else VUndefined
  end.

(** The WebDriver key code U+E0xx, in UTF-8. *)
Definition key_code (low : nat) : string :=
  String (ascii_of_nat 238) (String (ascii_of_nat 128)
    (String (ascii_of_nat (128 + low)) EmptyString)).

Definition keyMap : gmap string string :=
  list_to_map
    [ ("Enter", key_code 7);
      ("Esc", key_code 12);
      ("Escape", key_code 12);
      ("Tab", key_code 4);
      ("ArrowDown", key_code 21);
      ("ArrowUp", key_code 19) ].

Definition msg_unsupported_key (keyName : string) : string :=
  "Tecla " +:+ Js.quoted keyName +:+ " no está soportada.".

Definition press_key (keyName : string) : M unit :=
  let keyCode := get_property keyMap keyName in
  if negb (value_truthy keyCode) then throw (Thrown (msg_unsupported_key keyName))
  else Driver.keys (keys_of_value keyCode).

(** [process.env.VERSION || "default"]. *)
Definition version_or_default (v : option string) : string :=
  match v with
  | Some s => if Js.truthy s then s else "default"
  | None => "default"
  end.

Definition screenshot_name (location : string) : string :=
  Js.first (Js.split "." (Path.basename location)).

Definition screenshot_file (version name : string) : string :=
  "screenshots/" +:+ version +:+ "/" +:+ name +:+ ".png".

Definition take_screenshot : M unit :=
  v <- process_env_VERSION ;;
  let version := version_or_default v in
  location <- this_featureLocation ;;
  let screenshotName := screenshot_name location in
  let nombreArchivo := screenshot_file version screenshotName in
  let dirPath := Path.dirname nombreArchivo in
  present <- existsSync dirPath ;;
  (if negb present
   then mkdirSync dirPath ;;; console_log ("Carpeta creada: " +:+ dirPath)
   else ret tt) ;;;
  Driver.saveScreenshot nombreArchivo ;;;
  console_log ("Screenshot guardado: " +:+ nombreArchivo).

Definition msg_url_timeout (expectedUrl : string) : string :=
  "La URL no cambió a " +:+ Js.quoted expectedUrl +:+ " después de 10 segundos".

Definition should_be_on_page (expectedUrl : string) : M unit :=
  Driver.waitUntil
    (currentUrl <- Driver.getUrl ;;
     ret (String.eqb currentUrl expectedUrl))
    10000 (msg_url_timeout expectedUrl) ;;;
  finalUrl <- Driver.getUrl ;;
  assert_strictEqual finalUrl expectedUrl.

Definition msg_no_parent (parentSelector from : string) : string :=
  "No se encontró el padre " +:+ Js.quoted parentSelector +:+ " desde " +:+ Js.quoted from.

Definition msg_no_element (selector parentSelector : string) : string :=
  "No se encontró el elemento " +:+ Js.quoted selector +:+ " dentro del padre "
  +:+ Js.quoted parentSelector.

Definition select_all : KeysArg := KArray ["Control"; "a"].

Definition click_element (selector : string) : M unit :=
  element <- Driver.find None selector ;;
  e <- method_on element "waitForDisplayed" ;;
  Driver.waitForDisplayed e 5000 ;;;
  Driver.waitForClickable e 5000 ;;;
  Driver.click e.

Definition click_element_in_parent (fuel : nat) (selector parentSelector : string) : M unit :=
  baseElement <- Driver.find None selector ;;
  parentElement <- closest fuel baseElement parentSelector ;;
  p <- assert_ok_handle parentElement (msg_no_parent parentSelector selector) ;;
  element <- Driver.find (Some p) selector ;;
  e <- method_on element "waitForDisplayed" ;;
  Driver.waitForDisplayed e 5000 ;;;
  Driver.waitForClickable e 5000 ;;;
  Driver.click e.

Definition click_element_in_parent_with_child (fuel : nat)
    (selector parentSelector childSelector : string) : M unit :=
  childElement <- Driver.find None childSelector ;;
  c <- method_on childElement "waitForDisplayed" ;;
  Driver.waitForDisplayed c 10000 ;;;
  parentElement <- closest fuel childElement parentSelector ;;
  p <- assert_ok_handle parentElement (msg_no_parent parentSelector childSelector) ;;
  element <- find p selector ;;
  e <- assert_ok_handle element (msg_no_element selector parentSelector) ;;
  Driver.waitForDisplayed e 5000 ;;;
  Driver.waitForClickable e 5000 ;;;
  Driver.click e.

Definition clear_element (selector : string) : M unit :=
  element <- Driver.find None selector ;;
  e <- method_on element "waitForDisplayed" ;;
  Driver.waitForDisplayed e 5000 ;;;
  Driver.click e ;;;
  Driver.keys select_all ;;;
  Driver.keys (KString "Backspace").

Definition clear_element_in_parent (fuel : nat) (selector parentSelector : string) : M unit :=
  baseElement <- Driver.find None selector ;;
  parentElement <- closest fuel baseElement parentSelector ;;
  p <- assert_ok_handle parentElement (msg_no_parent parentSelector selector) ;;
  element <- Driver.find (Some p) selector ;;
  e <- method_on element "waitForDisplayed" ;;
  Driver.waitForDisplayed e 5000 ;;;
  Driver.click e ;;;
  Driver.keys select_all ;;;
  Driver.keys (KString "Backspace").

Definition clear_element_in_parent_with_child (fuel : nat)
    (selector parentSelector childSelector : string) : M unit :=
  childElement <- Driver.find None childSelector ;;
  c <- method_on childElement "waitForDisplayed" ;;
  Driver.waitForDisplayed c 10000 ;;;
  parentElement <- closest fuel childElement parentSelector ;;
  p <- assert_ok_handle parentElement (msg_no_parent parentSelector childSelector) ;;
  element <- find p selector ;;
  e <- assert_ok_handle element (msg_no_element selector parentSelector) ;;
  Driver.waitForDisplayed e 5000 ;;;
  Driver.click e ;;;
  Driver.keys select_all ;;;
  Driver.keys (KString "Backspace").

Definition enter_into_element (text childSelector : string) : M unit :=
  inputElement <- Driver.find None childSelector ;;
  e <- method_on inputElement "waitForDisplayed" ;;
  Driver.waitForDisplayed e 5000 ;;;
  Driver.click e ;;;
  Driver.keys select_all ;;;
  Driver.keys (KString "Backspace") ;;;
  Driver.keys (KString text).

Definition enter_into_element_in_parent (fuel : nat)
    (text childSelector parentSelector : string) : M unit :=
  baseElement <- Driver.find None childSelector ;;
  parentElement <- closest fuel baseElement parentSelector ;;
  p <- assert_ok_handle parentElement (msg_no_parent parentSelector childSelector) ;;
  inputElement <- Driver.find (Some p) childSelector ;;
  e <- method_on inputElement "waitForDisplayed" ;;
  Driver.waitForDisplayed e 5000 ;;;
  Driver.click e ;;;
  Driver.keys select_all ;;;
  Driver.keys (KString "Backspace") ;;;
  Driver.keys (KString text).

Definition enter_into_element_in_parent_with_child (fuel : nat)
    (text childSelector parentSelector baseSelector : string) : M unit :=
  childElement <- Driver.find None baseSelector ;;
  c <- method_on childElement "waitForDisplayed" ;;
  Driver.waitForDisplayed c 10000 ;;;
  parentElement <- closest fuel childElement parentSelector ;;
  p <- assert_ok_handle parentElement (msg_no_parent parentSelector baseSelector) ;;
  inputElement <- find p childSelector ;;
  e <- assert_ok_handle inputElement (msg_no_element childSelector parentSelector) ;;
  Driver.setValue e text.

Definition msg_text_timeout (expectedText elementSelector : string) : string :=
  "El texto " +:+ Js.quoted expectedText +:+ " no apareció dentro del elemento "
  +:+ Js.quoted elementSelector.

Definition msg_text_missing (expectedText : string) : string :=
  "No se encontró el texto " +:+ Js.quoted expectedText +:+ " en el elemento".

Definition msg_final_text (finalText : string) : string :=
  "Texto final encontrado: " +:+ Js.quoted finalText.

Definition should_see_in_element (expectedText elementSelector : string) : M unit :=
  targetElement <- Driver.find None elementSelector ;;
  Driver.waitUntil
    (t <- method_on targetElement "getText" ;;
     text <- Driver.getText t ;;
     ret (Js.includes text expectedText))
    10000 (msg_text_timeout expectedText elementSelector) ;;;
  t <- method_on targetElement "getText" ;;
  finalText <- Driver.getText t ;;
  console_log (msg_final_text finalText) ;;;
  assert_ok (Js.includes finalText expectedText) (msg_text_missing expectedText).

Definition should_see_in_element_in_parent (fuel : nat)
    (expectedText elementSelector parentSelector : string) : M unit :=
  baseElement <- Driver.find None elementSelector ;;
  parentElement <- closest fuel baseElement parentSelector ;;
  p <- assert_ok_handle parentElement (msg_no_parent parentSelector elementSelector) ;;
  targetElement <- Driver.find (Some p) elementSelector ;;
  Driver.waitUntil
    (t <- method_on targetElement "getText" ;;
     text <- Driver.getText t ;;
     ret (Js.includes text expectedText))
    10000 (msg_text_timeout expectedText elementSelector) ;;;
  t <- method_on targetElement "getText" ;;
  finalText <- Driver.getText t ;;
  console_log (msg_final_text finalText) ;;;
  assert_ok (Js.includes finalText expectedText) (msg_text_missing expectedText).

Definition should_see_in_element_in_parent_with_child (fuel : nat)
    (expectedText elementSelector parentSelector childSelector : string) : M unit :=
  childElement <- Driver.find None childSelector ;;
  c <- method_on childElement "waitForDisplayed" ;;
  Driver.waitForDisplayed c 10000 ;;;
  parentElement <- closest fuel childElement parentSelector ;;
  p <- assert_ok_handle parentElement (msg_no_parent parentSelector childSelector) ;;
  targetElement <- find p elementSelector ;;
  target <- assert_ok_handle targetElement (msg_no_element elementSelector parentSelector) ;;
  Driver.waitUntil
    (t <- method_on (Some target) "getText" ;;
     text <- Driver.getText t ;;
     ret (Js.includes text expectedText))
    10000 (msg_text_timeout expectedText elementSelector) ;;;
  t <- method_on (Some target) "getText" ;;
  finalText <- Driver.getText t ;;
  console_log (msg_final_text finalText) ;;;
  assert_ok (Js.includes finalText expectedText) (msg_text_missing expectedText).

Definition msg_attr_timeout (expectedValue attributeName selector : string) : string :=
  "El valor " +:+ Js.quoted expectedValue +:+ " no apareció en el atributo "
  +:+ Js.quoted attributeName +:+ " del elemento " +:+ Js.quoted selector.

(** A value interpolated in a template literal. *)
Definition interpolate (v : option string) : string :=
  match v with Some s => s | None => "null" end.

Definition msg_final_attr (attributeName : string) (finalAttr : option string) : string :=
  "Valor final del atributo " +:+ Js.quoted attributeName +:+ ": "
  +:+ Js.quoted (interpolate finalAttr).

Definition msg_attr_missing (attributeName expectedValue : string) (finalAttr : option string)
  : string :=
  "Se esperaba que el atributo " +:+ Js.quoted attributeName +:+ " contuviera "
  +:+ Js.quoted expectedValue +:+ " pero fue " +:+ Js.quoted (interpolate finalAttr).

(** Truthiness of [attr && attr.includes(expectedValue)]. *)
Definition attr_and_includes (attr : option string) (expectedValue : string) : bool :=
  match attr with
  | None => false
  | Some a => Js.truthy a && Js.includes a expectedValue
  end.

(** [finalAttr.includes(expectedValue)], with no test for [null] first. *)
Definition includes_on (finalAttr : option string) (expectedValue : string) : M bool :=
  match finalAttr with
  | Some a => ret (Js.includes a expectedValue)
  | None => throw (TypeError "Cannot read properties of null (reading 'includes')")
  end.

Definition should_see_in_attribute (expectedValue attributeName selector : string) : M unit :=
  element <- Driver.find None selector ;;
  Driver.waitUntil
    (e <- method_on element "getAttribute" ;;
     attr <- Driver.getAttribute e attributeName ;;
     ret (attr_and_includes attr expectedValue))
    10000 (msg_attr_timeout expectedValue attributeName selector) ;;;
  e <- method_on element "getAttribute" ;;
  finalAttr <- Driver.getAttribute e attributeName ;;
  console_log (msg_final_attr attributeName finalAttr) ;;;
  found <- includes_on finalAttr expectedValue ;;
  assert_ok found (msg_attr_missing attributeName expectedValue finalAttr).

(** The lines the three text steps repeat from [waitUntil] on: poll the
    element's text, read it once more, assert. *)
Definition expect_text (targetElement : option Node) (expectedText elementSelector : string)
  : M unit :=
  Driver.waitUntil
    (t <- method_on targetElement "getText" ;;
     text <- Driver.getText t ;;
     ret (Js.includes text expectedText))
    10000 (msg_text_timeout expectedText elementSelector) ;;;
  t <- method_on targetElement "getText" ;;
  finalText <- Driver.getText t ;;
  console_log (msg_final_text finalText) ;;;
  assert_ok (Js.includes finalText expectedText) (msg_text_missing expectedText).

(** The phrases of the step catalogue with their captured arguments, and
    the handler each is bound to. *)
Inductive Step :=
| PressKey (keyName : string)
| TakeScreenshot
| ShouldBeOnPage (expectedUrl : string)
| ClickElement (selector : string)
| ClickElementInParent (selector parentSelector : string)
| ClickElementInParentWithChild (selector parentSelector childSelector : string)
| ClearElement (selector : string)
| ClearElementInParent (selector parentSelector : string)
| ClearElementInParentWithChild (selector parentSelector childSelector : string)
| EnterIntoElement (text childSelector : string)
| EnterIntoElementInParent (text childSelector parentSelector : string)
| EnterIntoElementInParentWithChild (text childSelector parentSelector baseSelector : string)
| ShouldSeeInElement (expectedText elementSelector : string)
| ShouldSeeInElementInParent (expectedText elementSelector parentSelector : string)
| ShouldSeeInElementInParentWithChild
    (expectedText elementSelector parentSelector childSelector : string)
| ShouldSeeInAttribute (expectedValue attributeName selector : string).

Definition handler (fuel : nat) (step : Step) : M unit :=
  match step with
  | PressKey k => press_key k
  | TakeScreenshot => take_screenshot
  | ShouldBeOnPage u => should_be_on_page u
  | ClickElement s => click_element s
  | ClickElementInParent s p => click_element_in_parent fuel s p
  | ClickElementInParentWithChild s p c => click_element_in_parent_with_child fuel s p c
  | ClearElement s => clear_element s
  | ClearElementInParent s p => clear_element_in_parent fuel s p
  | ClearElementInParentWithChild s p c => clear_element_in_parent_with_child fuel s p c
  | EnterIntoElement t s => enter_into_element t s
  | EnterIntoElementInParent t s p => enter_into_element_in_parent fuel t s p
  | EnterIntoElementInParentWithChild t s p b =>
      enter_into_element_in_parent_with_child fuel t s p b
  | ShouldSeeInElement t s => should_see_in_element t s
  | ShouldSeeInElementInParent t s p => should_see_in_element_in_parent fuel t s p
  | ShouldSeeInElementInParentWithChild t s p c =>
      should_see_in_element_in_parent_with_child fuel t s p c
  | ShouldSeeInAttribute v n s => should_see_in_attribute v n s
  end.

(** ** Ancestors in one snapshot of the page *)

(** The clock moves on; nothing else does. *)
Definition tick (s : State) : State :=
  {| clock := S (clock s); dirs := dirs s |}.

Definition ticks (n : nat) (s : State) : State :=
  {| clock := n + clock s; dirs := dirs s |}.

(** The page never changes. *)
Definition static (env : Env) (p : Page) : Prop :=
  forall t, timeline env t = p.

(** What [n.$('..')] answers. *)
Definition parent_of (p : Page) (n : Node) : option Node :=
  head (page_query p (Some n) "..").

(** [chain_from p start l]: following parents from [start] visits exactly
    the nodes [l] and then finds no parent.  A chain exists only when
    the walk upwards is finite. *)
Inductive chain_from (p : Page) : option Node -> list Node -> Prop :=
| chain_end : chain_from p None []
| chain_step a l : chain_from p (parent_of p a) l -> chain_from p (Some a) (a :: l).

(** The ancestors of [e], nearest first. *)
Definition ancestors (p : Page) (e : Node) (l : list Node) : Prop :=
  chain_from p (parent_of p e) l.

(** The document root is recognised by its tag name. *)
Definition is_root (p : Page) (n : Node) : bool :=
  String.eqb (page_tag p n) "html".

(** The test that [closest] applies to the [class] attribute of [n]. *)
Definition has_class (p : Page) (selector : string) (n : Node) : bool :=
  class_matches (page_attr p n "class") selector.

(** The part of a chain strictly below the first root element. *)
Fixpoint below_root (p : Page) (chain : list Node) : list Node :=
  match chain with
  | [] => []
  | a :: l => if is_root p a then [] else a :: below_root p l
  end.

(** The part of a chain up to the first root element, root included. *)
Fixpoint up_to_root (p : Page) (chain : list Node) : list Node :=
  match chain with
  | [] => []
  | a :: l => if is_root p a then [a] else a :: up_to_root p l
  end.

(** The nearest node of the chain below the root that has the class. *)
Fixpoint nearest (p : Page) (selector : string) (chain : list Node) : option Node :=
  match chain with
  | [] => None
  | a :: l =>
      if is_root p a then None
      else if has_class p selector a then Some a
      else nearest p selector l
  end.

(** The calls the loop of [closest] makes along a chain. *)
Fixpoint loop_calls (p : Page) (selector : string) (chain : list Node) : list Event :=
  match chain with
  | [] => []
  | a :: l =>
      EGetTagName a (page_tag p a) ::
      if is_root p a then []
      else
        EGetAttribute a "class" (page_attr p a "class") ::
        if has_class p selector a then []
        else EFind (Some a) ".." (parent_of p a) :: loop_calls p selector l
  end.

(** The node a call is made on, if any. *)
Definition event_node (ev : Event) : option Node :=
  match ev with
  | EFind root _ _ => root
  | EFindAll root _ _ => root
  | EGetTagName h _ => Some h
  | EGetAttribute h _ _ => Some h
  | EGetText h _ => Some h
  | EWaitForDisplayed h _ _ => Some h
  | EWaitForClickable h _ _ => Some h
  | EClick h => Some h
  | ESetValue h _ => Some h
  | _ => None
  end.

(** ** Statements about [closest] *)

(** No node of a list passes the class test of [closest]. *)
Definition none_has_class (p : Page) (selector : string) (l : list Node) : Prop :=
  Forall (fun m => has_class p selector m = false) l.

(** [n] is the one node of a list that passes the class test of
    [closest]. *)
Definition only_has_class (p : Page) (selector : string) (l : list Node) (n : Node) : Prop :=
  n ∈ l /\ has_class p selector n = true /\
  forall m, m ∈ l -> has_class p selector m = true -> m = n.

(** ** A small document to run the handlers on *)

Module Sample.

(** [html.dark > body > div.card.big > div.row > span#x], numbered from
    the root; node 5 is an [input#name] next to the [span], hidden and
    never shown. *)
Definition tag (n : Node) : string :=
  match n with
  | 0 => "html"
  | 1 => "body"
  | 4 => "span"
  | 5 => "input"
  | _ => "div"
  end.

Definition attr (n : Node) (name : string) : option string :=
  if String.eqb name "class" then
    match n with
    | 0 => Some "dark"
    | 2 => Some "card big"
    | 3 => Some "row"
    | _ => None
    end
  else if String.eqb name "id" then
    match n with
    | 4 => Some "x"
    | 5 => Some "name"
    | _ => None
    end
  else None.

Definition parent (n : Node) : list Node :=
  match n with
  | 0 => []
  | 5 => [3]
  | S m => [m]
  end.

Definition query (root : option Node) (sel : string) : list Node :=
  if String.eqb sel ".." then
    match root with Some n => parent n | None => [] end
  else if String.eqb sel "#x" then [4]
  else if String.eqb sel "#name" then [5]
  else [].

Definition page : Page :=
  {| page_url := "https://kraken.test/home";
     page_query := query;
     page_tag := tag;
     page_attr := attr;
     page_text := fun n => match n with 4 => "Saved" | _ => EmptyString end;
     page_displayed := fun n => negb (Nat.eqb n 5);
     page_clickable := fun n => negb (Nat.eqb n 5) |}.

(** The message of [assert.strictEqual] for two short strings. *)
Definition generated (actual expected : string) : string :=
  let lf := String (ascii_of_nat 10) EmptyString in
  "Expected values to be strictly equal:" +:+ lf +:+ lf +:+
  "'" +:+ actual +:+ "' !== '" +:+ expected +:+ "'" +:+ lf.

Definition env : Env :=
  {| timeline := fun _ => page;
     polls := fun timeout => Z.to_nat (timeout / 500);
     env_VERSION := None;
     featureLocation := "features/web/login.feature";
     strictEqualMessage := generated |}.

(** The same scenario kept elsewhere under another extension. *)
Definition env_other : Env :=
  {| timeline := fun _ => page;
     polls := fun timeout => Z.to_nat (timeout / 500);
     env_VERSION := None;
     featureLocation := "archive/login.txt";
     strictEqualMessage := generated |}.

(** The feature files [login.feature] and [login.smoke.feature], run with
    [VERSION=v5]. *)
Definition env_v5 : Env :=
  {| timeline := fun _ => page;
     polls := fun timeout => Z.to_nat (timeout / 500);
     env_VERSION := Some "v5";
     featureLocation := "features/web/login.feature";
     strictEqualMessage := generated |}.

Definition env_smoke : Env :=
  {| timeline := fun _ => page;
     polls := fun timeout => Z.to_nat (timeout / 500);
     env_VERSION := Some "v5";
     featureLocation := "features/web/login.smoke.feature";
     strictEqualMessage := generated |}.

Definition start : State := {| clock := 0; dirs := ∅ |}.

(** A later state, in which the directory of version [v5] exists. *)
Definition with_v5 : State :=
  {| clock := 7; dirs := {[ "screenshots"; "screenshots/v5" ]} |}.

(** The same page with an [aria-label] on the [span], or without. *)
Definition labelled (label : option string) : Page :=
  {| page_url := page_url page;
     page_query := query;
     page_tag := tag;
     page_attr := fun n name =>
       if String.eqb name "aria-label" then
         match n with 4 => label | _ => None end
       else attr n name;
     page_text := page_text page;
     page_displayed := page_displayed page;
     page_clickable := page_clickable page |}.

(** The label is there at instant 1 only. *)
Definition env_flicker : Env :=
  {| timeline := fun t =>
       if Nat.eqb t 1 then labelled (Some "Saved") else labelled None;
     polls := fun timeout => Z.to_nat (timeout / 500);
     env_VERSION := None;
     featureLocation := "features/web/login.feature";
     strictEqualMessage := generated |}.

End Sample.

(** ** Statements about the screenshot step *)

(** A file name with its extension stripped, in the words of the
    specification: the last dot and what follows it are removed, except
    that a leading dot starts no extension and [".."] has none. *)
Fixpoint has_dot (s : string) : bool :=
  match s with
  | EmptyString => false
  | String c r => Ascii.eqb c "." || has_dot r
  end.

Fixpoint cut_last_dot (s : string) : string :=
  match s with
  | EmptyString => EmptyString
  | String c r =>
      if Ascii.eqb c "." && negb (has_dot r) then EmptyString
      else String c (cut_last_dot r)
  end.

Definition strip_extension (name : string) : string :=
  match name with
  | EmptyString => EmptyString
  | String c r => if String.eqb name ".." then name else String c (cut_last_dot r)
  end.

(** The file the screenshot step writes, and the directory it needs. *)
Definition screenshot_path (env : Env) : string :=
  screenshot_file (version_or_default (env_VERSION env))
                  (screenshot_name (featureLocation env)).

(** The paths handed to [saveScreenshot] in a trace, and the directories
    created. *)
Definition saved_paths (t : list Event) : list string :=
  omap (fun ev => match ev with ESaveScreenshot path => Some path | _ => None end) t.

Definition created_dirs (t : list Event) : list string :=
  omap (fun ev => match ev with EMkdirSync path => Some path | _ => None end) t.

(** ** Statements about the key step *)

(** The calls of a trace that reach the driver; [fs] and [console] are not
    the driver. *)
Definition is_driver_call (ev : Event) : bool :=
  match ev with
  | EExistsSync _ _ | EMkdirSync _ | EConsoleLog _ => false
  | _ => true
  end.

Definition driver_calls (t : list Event) : list Event :=
  List.filter is_driver_call t.

(** The six key names of the table. *)
Definition supported_keys : list string :=
  ["Enter"; "Esc"; "Escape"; "Tab"; "ArrowDown"; "ArrowUp"].

(** ** Statements about polling *)

(** A condition that reads the page once: it takes one tick, makes one
    call, and answers [obs] of the page of the moment. *)
Definition probe (env : Env) (cond : M bool) (obs : Page -> bool) (ev : Page -> Event) : Prop :=
  forall s,
    cond env s =
      {| result := Ok (obs (timeline env (clock s)));
         final := tick s;
         trace := [ev (timeline env (clock s))] |}.

(** The calls of [k] successive readings from instant [c] on. *)
Definition readings (env : Env) (ev : Page -> Event) (c k : nat) : list Event :=
  map (fun i => ev (timeline env (i + c))) (seq 0 k).

(** The conditions handed to [waitUntil] by the verification steps. *)
Definition url_condition (expectedUrl : string) : M bool :=
  currentUrl <- Driver.getUrl ;;
  ret (String.eqb currentUrl expectedUrl).

Definition text_condition (targetElement : option Node) (expectedText : string) : M bool :=
  t <- method_on targetElement "getText" ;;
  text <- Driver.getText t ;;
  ret (Js.includes text expectedText).

Definition attribute_condition (element : option Node) (attributeName expectedValue : string)
  : M bool :=
  e <- method_on element "getAttribute" ;;
  attr <- Driver.getAttribute e attributeName ;;
  ret (attr_and_includes attr expectedValue).

(** What the last lines of the attribute step do with the value read
    again: [null] has no [includes]. *)
Definition attribute_verdict (attributeName expectedValue : string) (finalAttr : option string)
  : Result unit :=
  match finalAttr with
  | None => Err (TypeError "Cannot read properties of null (reading 'includes')")
  | Some a =>
      if Js.includes a expectedValue then Ok tt
      else Err (AssertionError (msg_attr_missing attributeName expectedValue finalAttr))
  end.


(** ** Statements about the scoped steps *)

(** The first lines of a scoped step, up to and including the call of
    [closest]: from the target itself, or from a child that is waited for. *)
Definition resolve_from_target (fuel : nat) (selector parentSelector : string)
  : M (option Node) :=
  baseElement <- Driver.find None selector ;;
  closest fuel baseElement parentSelector.

Definition resolve_from_child (fuel : nat) (childSelector parentSelector : string)
  : M (option Node) :=
  childElement <- Driver.find None childSelector ;;
  c <- method_on childElement "waitForDisplayed" ;;
  Driver.waitForDisplayed c 10000 ;;;
  closest fuel childElement parentSelector.

(** For each step with [in closest parent]: its ancestor resolution, the
    parent selector, and the selector the walk starts from. *)
Definition ancestor_resolution (fuel : nat) (step : Step)
  : option (M (option Node) * string * string) :=
  match step with
  | ClickElementInParent s p => Some (resolve_from_target fuel s p, p, s)
  | ClickElementInParentWithChild _ p c => Some (resolve_from_child fuel c p, p, c)
  | ClearElementInParent s p => Some (resolve_from_target fuel s p, p, s)
  | ClearElementInParentWithChild _ p c => Some (resolve_from_child fuel c p, p, c)
  | EnterIntoElementInParent _ s p => Some (resolve_from_target fuel s p, p, s)
  | EnterIntoElementInParentWithChild _ _ p b => Some (resolve_from_child fuel b p, p, b)
  | ShouldSeeInElementInParent _ s p => Some (resolve_from_target fuel s p, p, s)
  | ShouldSeeInElementInParentWithChild _ _ p c => Some (resolve_from_child fuel c p, p, c)
  | _ => None
  end.

(** The calls of the walk upwards: a tag name, a [class] attribute, a
    parent lookup. *)
Definition is_parent_walk (ev : Event) : bool :=
  match ev with
  | EGetTagName _ _ => true
  | EGetAttribute _ name _ => String.eqb name "class"
  | EFind (Some _) sel _ => String.eqb sel ".."
  | _ => false
  end.

(** The calls of ancestor resolution after the starting lookup: the walk,
    and the wait for the child the walk starts from. *)
Definition is_resolution_call (ev : Event) : bool :=
  match ev with
  | EWaitForDisplayed _ _ _ => true
  | _ => is_parent_walk ev
  end.

(** A message names a value when the value occurs in it. *)
Definition names (msg what : string) : Prop :=
  Js.includes msg what = true.

(** ** Statements about the action steps *)

(** The click, clear and enter-text steps, and among them the click
    steps. *)
Definition is_action_step (step : Step) : bool :=
  match step with
  | ClickElement _ | ClickElementInParent _ _ | ClickElementInParentWithChild _ _ _
  | ClearElement _ | ClearElementInParent _ _ | ClearElementInParentWithChild _ _ _
  | EnterIntoElement _ _ | EnterIntoElementInParent _ _ _
  | EnterIntoElementInParentWithChild _ _ _ _ => true
  | _ => false
  end.

Definition is_click_step (step : Step) : bool :=
  match step with
  | ClickElement _ | ClickElementInParent _ _ | ClickElementInParentWithChild _ _ _ => true
  | _ => false
  end.

(** The element a call acts on: a click or a value set. *)
Definition acts_on (ev : Event) : option Node :=
  match ev with
  | EClick h => Some h
  | ESetValue h _ => Some h
  | _ => None
  end.

Definition among (h : Node) (l : list Node) : bool :=
  existsb (Nat.eqb h) l.

(** [waited_first c shown clickable t]: along the trace [t], every element
    acted on was before that reported displayed by a wait, and, when [c]
    is set, every element clicked was also reported clickable.  [shown] and
    [clickable] are the elements so reported before [t]. *)
Fixpoint waited_first (c : bool) (shown clickable : list Node) (t : list Event) : bool :=
  match t with
  | [] => true
  | ev :: rest =>
      match ev with
      | EWaitForDisplayed h _ true => waited_first c (h :: shown) clickable rest
      | EWaitForClickable h _ true => waited_first c shown (h :: clickable) rest
      | EClick h =>
          among h shown && (negb c || among h clickable)
          && waited_first c shown clickable rest
      | ESetValue h _ => among h shown && waited_first c shown clickable rest
      | _ => waited_first c shown clickable rest
      end
  end.

(** ** Statements about the verification steps *)

(** [obs] first holds at the [k]-th reading counted from instant [c]. *)
Definition first_holds_at (env : Env) (obs : Page -> bool) (c k : nat) : Prop :=
  (forall i, i < k -> obs (timeline env (i + c)) = false) /\
  obs (timeline env (k + c)) = true.

(** For each polling verification step: the expected value and the
    selector, or URL, under test. *)
Definition polling_target (step : Step) : option (string * string) :=
  match step with
  | ShouldBeOnPage u => Some (u, u)
  | ShouldSeeInElement e sel => Some (e, sel)
  | ShouldSeeInElementInParent e sel _ => Some (e, sel)
  | ShouldSeeInElementInParentWithChild e sel _ _ => Some (e, sel)
  | ShouldSeeInAttribute v _ sel => Some (v, sel)
  | _ => None
  end.

(** The reading of the timeout contract in which every timeout message
    names the expected value, the target and the duration of the budget:
    ten seconds, ten thousand milliseconds, in any case the digits 10. *)
Definition timeout_names_duration : Prop :=
  forall fuel step expected target env s msg,
    polling_target step = Some (expected, target) ->
    result (handler fuel step env s) = Err (WaitUntilTimeout msg) ->
    names msg expected /\ names msg target /\ names msg "10".

(** The message each polling verification step hands to [waitUntil]. *)
Definition timeout_message (step : Step) : string :=
  match step with
  | ShouldBeOnPage u => msg_url_timeout u
  | ShouldSeeInElement e sel => msg_text_timeout e sel
  | ShouldSeeInElementInParent e sel _ => msg_text_timeout e sel
  | ShouldSeeInElementInParentWithChild e sel _ _ => msg_text_timeout e sel
  | ShouldSeeInAttribute v n sel => msg_attr_timeout v n sel
  | _ => EmptyString
  end.
(** ** The class test in the words of the specification *)

(** The characters that separate the tokens of a [class] attribute: space,
    tab, line feed, form feed and carriage return. *)
Definition is_whitespace (c : ascii) : bool :=
  Ascii.eqb c " " || Ascii.eqb c (ascii_of_nat 9) || Ascii.eqb c (ascii_of_nat 10)
  || Ascii.eqb c (ascii_of_nat 12) || Ascii.eqb c (ascii_of_nat 13).

(** A string cut at every whitespace character, empty pieces included. *)
Fixpoint whitespace_pieces (s : string) : list string :=
  match s with
  | EmptyString => [EmptyString]
  | String c r =>
      if is_whitespace c then EmptyString :: whitespace_pieces r
      else match whitespace_pieces r with
           | [] => [String c EmptyString]
           | w :: ws => String c w :: ws
           end
  end.

(** The class token list of an element: its [class] attribute tokenized on
    whitespace; an absent, empty or whitespace-only attribute has no
    token. *)
Definition class_tokens (classAttr : option string) : list string :=
  match classAttr with
  | None => []
  | Some c => List.filter Js.truthy (whitespace_pieces c)
  end.

(** The class that a selector names: the selector with a leading dot
    stripped. *)
Definition target_class (selector : string) : string :=
  match selector with
  | EmptyString => EmptyString
  | String c r => if Ascii.eqb c "." then r else selector
  end.

(** The class token list of [n] includes the class that [selector]
    names. *)
Definition in_class_list (p : Page) (selector : string) (n : Node) : bool :=
  bool_decide (target_class selector ∈ class_tokens (page_attr p n "class")).

Definition none_in_class_list (p : Page) (selector : string) (l : list Node) : Prop :=
  Forall (fun m => in_class_list p selector m = false) l.

Definition only_in_class_list (p : Page) (selector : string) (l : list Node) (n : Node)
  : Prop :=
  n ∈ l /\ in_class_list p selector n = true /\
  forall m, m ∈ l -> in_class_list p selector m = true -> m = n.

(** The reading of the resolver's contract in which the document root
    element belongs to the ancestors that are searched. *)
Definition closest_searches_up_to_root : Prop :=
  forall env p selector e chain fuel s n,
    static env p ->
    ancestors p e chain ->
    length chain <= fuel ->
    only_in_class_list p selector (up_to_root p chain) n ->
    result (closest fuel (Some e) selector env s) = Ok (Some n).

(** A [class] attribute whose only whitespace is the space character. *)
Fixpoint spaces_only (s : string) : bool :=
  match s with
  | EmptyString => true
  | String c r => (negb (is_whitespace c) || Ascii.eqb c " ") && spaces_only r
  end.

Definition space_separated (p : Page) (l : list Node) : Prop :=
  forall n c, n ∈ l -> page_attr p n "class" = Some c -> spaces_only c = true.

(** A selector that names a class: it starts with a dot or has none, and
    the class it names is not empty. *)
Definition names_a_class (selector : string) : Prop :=
  target_class selector <> EmptyString /\
  ((exists r, selector = String "." r) \/ has_dot selector = false).

(** ** Further statements *)

(** A character occurs in a string. *)
Fixpoint contains_char (c : ascii) (s : string) : bool :=
  match s with
  | EmptyString => false
  | String d r => Ascii.eqb d c || contains_char c r
  end.

(** The calls that change the page: a click, keys sent, a value set. *)
Definition is_action (ev : Event) : bool :=
  match ev with
  | EClick _ | EKeys _ | ESetValue _ _ => true
  | _ => false
  end.

(** A trace from its first action on. *)
Fixpoint from_first_action (t : list Event) : list Event :=
  match t with
  | [] => []
  | ev :: rest => if is_action ev then t else from_first_action rest
  end.

(** What each action step does to its target [h], in order. *)
Definition performs (step : Step) (h : Node) : list Event :=
  match step with
  | ClickElement _ | ClickElementInParent _ _ | ClickElementInParentWithChild _ _ _ =>
      [EClick h]
  | ClearElement _ | ClearElementInParent _ _ | ClearElementInParentWithChild _ _ _ =>
      [EClick h; EKeys select_all; EKeys (KString "Backspace")]
  | EnterIntoElement text _ | EnterIntoElementInParent text _ _ =>
      [EClick h; EKeys select_all; EKeys (KString "Backspace"); EKeys (KString text)]
  | EnterIntoElementInParentWithChild text _ _ _ =>
      [ESetValue h text]
  | _ => []
  end.

(** For each scoped step, the call that looks for the target below the
    ancestor [p] on the page [page]: [p.$(selector)] in the steps that
    start from the target, [p.$$(selector)] in those that start from a
    child. *)
Definition scoped_locator (step : Step) (p : Node) (page : Page) : option Event :=
  let first s := Some (EFind (Some p) s (head (page_query page (Some p) s))) in
  let all s := Some (EFindAll (Some p) s (page_query page (Some p) s)) in
  match step with
  | ClickElementInParent s _ => first s
  | ClickElementInParentWithChild s _ _ => all s
  | ClearElementInParent s _ => first s
  | ClearElementInParentWithChild s _ _ => all s
  | EnterIntoElementInParent _ s _ => first s
  | EnterIntoElementInParentWithChild _ s _ _ => all s
  | ShouldSeeInElementInParent _ s _ => first s
  | ShouldSeeInElementInParentWithChild _ s _ _ => all s
  | _ => None
  end.

(** The target selector of the steps that start from a child. *)
Definition with_child_target (step : Step) : option string :=
  match step with
  | ClickElementInParentWithChild s _ _ => Some s
  | ClearElementInParentWithChild s _ _ => Some s
  | EnterIntoElementInParentWithChild _ s _ _ => Some s
  | ShouldSeeInElementInParentWithChild _ s _ _ => Some s
  | _ => None
  end.

(** The sample page with a lasting [aria-label] on the [span]. *)
Definition sample_env_labelled : Env :=
  {| timeline := fun _ => Sample.labelled (Some "Saved");
     polls := fun timeout => Z.to_nat (timeout / 500);
     env_VERSION := Some "v5";
     featureLocation := "features/web/login.smoke.feature";
     strictEqualMessage := Sample.generated |}.

(** A wait for clickability. *)
Definition is_clickable_wait (ev : Event) : bool :=
  match ev with
  | EWaitForClickable _ _ _ => true
  | _ => false
  end.

(** A string without a slash. *)
Definition no_slash (s : string) : Prop :=
  Forall (fun c => Path.is_slash c = false) (Path.chars s).
(** * Checks of the string and path helpers *)

Example split_two : Js.split " " "card big" = ["card"; "big"].
Proof. reflexivity. Qed.

Example split_double_space : Js.split " " "a  b" = ["a"; EmptyString; "b"].
Proof. reflexivity. Qed.

Example split_empty : Js.split " " EmptyString = [EmptyString].
Proof. reflexivity. Qed.

Example remove_first_leading : Js.remove_first "." ".card" = "card".
Proof. reflexivity. Qed.

Example includes_middle : Js.includes "not Saved yet" "Saved" = true.
Proof. reflexivity. Qed.

Example includes_empty : Js.includes EmptyString EmptyString = true.
Proof. reflexivity. Qed.

Example basename_feature : Path.basename "features/web/login.feature" = "login.feature".
Proof. reflexivity. Qed.

Example basename_trailing : Path.basename "features/web//" = "web".
Proof. reflexivity. Qed.

Example dirname_png : Path.dirname "screenshots/default/login.png" = "screenshots/default".
Proof. reflexivity. Qed.

Example dirname_double : Path.dirname "a/b//c" = "a/b/".
Proof. reflexivity. Qed.

Example dirname_plain : Path.dirname "login.png" = ".".
Proof. reflexivity. Qed.

Example dirname_root : Path.dirname "/login.png" = "/".
Proof. reflexivity. Qed.


(** * The monad: how handlers run *)

Section Running.

Context {A B : Type}.

Lemma bind_ok (m : M A) (f : A -> M B) env s a s1 t1 :
  m env s = {| result := Ok a; final := s1; trace := t1 |} ->
  bind m f env s =
    {| result := result (f a env s1);
       final := final (f a env s1);
       trace := t1 ++ trace (f a env s1) |}.
Proof. intros H. unfold bind. rewrite H. reflexivity. Qed.

Lemma bind_err (m : M A) (f : A -> M B) env s e s1 t1 :
  m env s = {| result := Err e; final := s1; trace := t1 |} ->
  bind m f env s = {| result := Err e; final := s1; trace := t1 |}.
Proof. intros H. unfold bind. rewrite H. reflexivity. Qed.

End Running.

Lemma outcome_eta {A} (o : Outcome A) :
  o = {| result := result o; final := final o; trace := trace o |}.
Proof. destruct o; reflexivity. Qed.

(** Each reading call answers from the page of the moment and takes one
    tick. *)
Lemma find_run root sel env s :
  Driver.find root sel env s =
    {| result := Ok (head (page_query (timeline env (clock s)) root sel));
       final := tick s;
       trace := [EFind root sel (head (page_query (timeline env (clock s)) root sel))] |}.
Proof. reflexivity. Qed.

Lemma findAll_run root sel env s :
  Driver.findAll root sel env s =
    {| result := Ok (page_query (timeline env (clock s)) root sel);
       final := tick s;
       trace := [EFindAll root sel (page_query (timeline env (clock s)) root sel)] |}.
Proof. reflexivity. Qed.

Lemma getTagName_run h env s :
  Driver.getTagName h env s =
    {| result := Ok (page_tag (timeline env (clock s)) h);
       final := tick s;
       trace := [EGetTagName h (page_tag (timeline env (clock s)) h)] |}.
Proof. reflexivity. Qed.

Lemma getAttribute_run h name env s :
  Driver.getAttribute h name env s =
    {| result := Ok (page_attr (timeline env (clock s)) h name);
       final := tick s;
       trace := [EGetAttribute h name (page_attr (timeline env (clock s)) h name)] |}.
Proof. reflexivity. Qed.

Lemma getText_run h env s :
  Driver.getText h env s =
    {| result := Ok (page_text (timeline env (clock s)) h);
       final := tick s;
       trace := [EGetText h (page_text (timeline env (clock s)) h)] |}.
Proof. reflexivity. Qed.

Lemma getUrl_run env s :
  Driver.getUrl env s =
    {| result := Ok (page_url (timeline env (clock s)));
       final := tick s;
       trace := [EGetUrl (page_url (timeline env (clock s)))] |}.
Proof. reflexivity. Qed.

(** * [closest] on a page that does not change *)

Section Closest.

Variable env : Env.
Variable p : Page.
Hypothesis Hstatic : static env p.
Variable selector : string.

(** The loop, given fuel for every node of the chain, returns the nearest
    node below the root that has the class, after exactly the calls of
    [loop_calls]. *)
Lemma closest_loop_static chain :
  forall start fuel s,
    chain_from p start chain ->
    length chain <= fuel ->
    closest_loop fuel start selector env s =
      {| result := Ok (nearest p selector chain);
         final := ticks (length (loop_calls p selector chain)) s;
         trace := loop_calls p selector chain |}.
Proof.
  induction chain as [|a l IH]; intros start fuel s Hchain Hfuel.
  - inversion Hchain; subst. destruct fuel; destruct s; reflexivity.
  - inversion Hchain as [|a' l' Hrest]; subst.
    destruct fuel as [|fuel]; [simpl in Hfuel; lia|].
    simpl in Hfuel.
    cbn [closest_loop].
    erewrite bind_ok by apply getTagName_run.
    rewrite (Hstatic (clock s)).
    cbn [nearest loop_calls]. unfold is_root.
    destruct (String.eqb (page_tag p a) "html") eqn:Htag.
    + destruct s; reflexivity.
    + erewrite bind_ok by apply getAttribute_run.
      cbn [tick clock]. rewrite (Hstatic (S (clock s))).
      unfold has_class.
      destruct (class_matches (page_attr p a "class") selector) eqn:Hm.
      * destruct s; reflexivity.
      * erewrite bind_ok by apply find_run.
        cbn [tick clock]. rewrite (Hstatic (S (S (clock s)))).
        fold (parent_of p a).
        rewrite (IH (parent_of p a) fuel _ Hrest) by lia.
        cbn [result final trace app length].
        destruct s; unfold ticks, tick; cbn [clock dirs].
        f_equal. f_equal. lia.
Qed.

End Closest.

Lemma closest_static env p selector e chain fuel s :
  static env p ->
  ancestors p e chain ->
  length chain <= fuel ->
  closest fuel (Some e) selector env s =
    {| result := Ok (nearest p selector chain);
       final := ticks (S (length (loop_calls p selector chain))) s;
       trace := EFind (Some e) ".." (parent_of p e) :: loop_calls p selector chain |}.
Proof.
  intros Hst Hanc Hfuel. unfold closest.
  cbn [method_on].
  erewrite bind_ok by reflexivity.
  erewrite bind_ok by apply find_run.
  rewrite (Hst (clock s)). fold (parent_of p e).
  rewrite (closest_loop_static env p Hst selector chain _ fuel _ Hanc Hfuel).
  cbn [result final trace app].
  destruct s; unfold ticks, tick; cbn [clock dirs].
  f_equal. f_equal. lia.
Qed.

(** [nearest] picks from the part of the chain below the root. *)
Lemma nearest_none p selector chain :
  none_has_class p selector (below_root p chain) ->
  nearest p selector chain = None.
Proof.
  unfold none_has_class.
  induction chain as [|a l IH]; cbn [below_root nearest]; intros H; [reflexivity|].
  destruct (is_root p a); [reflexivity|].
  inversion H as [|? ? Ha Hl]; subst. rewrite Ha. auto.
Qed.

Lemma nearest_first p selector chain l1 n l2 :
  below_root p chain = l1 ++ n :: l2 ->
  has_class p selector n = true ->
  none_has_class p selector l1 ->
  nearest p selector chain = Some n.
Proof.
  unfold none_has_class.
  revert l1. induction chain as [|a l IH]; intros l1 Hsplit Hn Hl1.
  - destruct l1; discriminate.
  - cbn [below_root nearest] in *.
    destruct (is_root p a); [destruct l1; discriminate|].
    destruct l1 as [|b l1]; cbn [app] in Hsplit; injection Hsplit as -> Hsplit.
    + rewrite Hn. reflexivity.
    + inversion Hl1 as [|? ? Hb Hrest]; subst. rewrite Hb. eauto.
Qed.

Lemma nearest_some p selector chain n :
  nearest p selector chain = Some n ->
  exists l1 l2,
    below_root p chain = l1 ++ n :: l2 /\
    has_class p selector n = true /\
    none_has_class p selector l1.
Proof.
  unfold none_has_class.
  induction chain as [|a l IH]; cbn [below_root nearest]; [discriminate|].
  destruct (is_root p a); [discriminate|].
  destruct (has_class p selector a) eqn:Ha.
  - intros [= ->]. exists [], (below_root p l). auto.
  - intros H. destruct (IH H) as (l1 & l2 & -> & Hn & Hl1).
    exists (a :: l1), l2. auto.
Qed.

Lemma nearest_is_none p selector chain :
  nearest p selector chain = None ->
  none_has_class p selector (below_root p chain).
Proof.
  unfold none_has_class.
  induction chain as [|a l IH]; cbn [below_root nearest]; [constructor|].
  destruct (is_root p a); [constructor|].
  destruct (has_class p selector a) eqn:Ha; [discriminate|].
  intros H. constructor; auto.
Qed.

Lemma nearest_only p selector chain n :
  only_has_class p selector (below_root p chain) n ->
  nearest p selector chain = Some n.
Proof.
  intros (Hin & Hn & Huniq).
  destruct (nearest p selector chain) as [m|] eqn:Hnear.
  - destruct (nearest_some _ _ _ _ Hnear) as (l1 & l2 & Hsplit & Hm & _).
    f_equal. apply Huniq; [|exact Hm].
    rewrite Hsplit. apply elem_of_app. right. apply elem_of_cons. auto.
  - apply nearest_is_none in Hnear.
    unfold none_has_class in Hnear. rewrite Forall_forall in Hnear.
    rewrite (Hnear n Hin) in Hn. discriminate.
Qed.

(** ** Where the walk stops *)

Lemma up_to_root_cases p chain :
  (exists r, up_to_root p chain = below_root p chain ++ [r] /\ is_root p r = true)
  \/ (below_root p chain = chain /\ up_to_root p chain = chain).
Proof.
  induction chain as [|a l IH]; cbn [up_to_root below_root].
  - right. auto.
  - destruct (is_root p a) eqn:Ha.
    + left. exists a. auto.
    + destruct IH as [(r & -> & Hr)|[-> ->]].
      * left. exists r. auto.
      * right. auto.
Qed.

Lemma last_cons_default (l : list Node) a e :
  List.last (a :: l) e = List.last l a.
Proof.
  revert a e. induction l as [|b l IH]; intros a e; [reflexivity|].
  change (List.last (a :: b :: l) e) with (List.last (b :: l) e).
  rewrite (IH b e), (IH b a). reflexivity.
Qed.

Lemma chain_from_top p start chain :
  chain_from p start chain ->
  forall e, parent_of p e = start -> parent_of p (List.last chain e) = None.
Proof.
  induction 1 as [|a l Hrest IH]; intros e He.
  - exact He.
  - rewrite last_cons_default. apply IH. reflexivity.
Qed.

Lemma below_root_sub p chain n :
  n ∈ below_root p chain -> n ∈ up_to_root p chain.
Proof.
  induction chain as [|a l IH]; cbn [below_root up_to_root]; [auto|].
  destruct (is_root p a); [intros H; apply elem_of_nil in H; destruct H|].
  rewrite !elem_of_cons. intros [->|H]; auto.
Qed.

Lemma loop_calls_nodes p selector chain :
  Forall (fun ev => forall n, event_node ev = Some n -> n ∈ up_to_root p chain)
         (loop_calls p selector chain).
Proof.
  induction chain as [|a l IH]; cbn [loop_calls up_to_root]; [constructor|].
  destruct (is_root p a) eqn:Ha.
  - constructor; [|constructor]. intros n [= <-]. constructor.
  - constructor; [intros n [= <-]; constructor|].
    constructor; [intros n [= <-]; constructor|].
    destruct (has_class p selector a); [constructor|].
    constructor; [intros n [= <-]; constructor|].
    eapply Forall_impl; [exact IH|].
    intros ev H n Hn. apply elem_of_cons. right. auto.
Qed.

(** Parent lookups are only issued from nodes below the root. *)
Lemma loop_calls_lookups p selector chain :
  Forall (fun ev => forall n sel r, ev = EFind (Some n) sel r -> n ∈ below_root p chain)
         (loop_calls p selector chain).
Proof.
  induction chain as [|a l IH]; cbn [loop_calls below_root]; [constructor|].
  destruct (is_root p a) eqn:Ha.
  - constructor; [|constructor]. discriminate.
  - constructor; [discriminate|].
    constructor; [discriminate|].
    destruct (has_class p selector a); [constructor|].
    constructor; [intros n sel r [= <- _ _]; constructor|].
    eapply Forall_impl; [exact IH|].
    intros ev H n sel r Hev. apply elem_of_cons. right. eauto.
Qed.

(** C9: on a page that does not change, for a starting element with a
    finite chain of ancestors, [closest] returns (fuel for every node of
    the chain is enough): a node below the root that has the class, or
    [null] at the root element without a match, or [null] where a parent
    lookup finds no node; every call it makes is on the starting element or
    on a node of the chain up to the root, and no parent lookup is made
    from the root or beyond. *)
Theorem closest_terminates env p selector e chain fuel s :
  static env p ->
  ancestors p e chain ->
  length chain <= fuel ->
  ((exists n,
      result (closest fuel (Some e) selector env s) = Ok (Some n) /\
      n ∈ below_root p chain /\ has_class p selector n = true)
   \/ (result (closest fuel (Some e) selector env s) = Ok None /\
       none_has_class p selector (below_root p chain) /\
       exists r, up_to_root p chain = below_root p chain ++ [r] /\ is_root p r = true)
   \/ (result (closest fuel (Some e) selector env s) = Ok None /\
       none_has_class p selector chain /\
       below_root p chain = chain /\
       parent_of p (List.last chain e) = None))
  /\ Forall (fun ev => forall n, event_node ev = Some n ->
                        n = e \/ n ∈ up_to_root p chain)
            (trace (closest fuel (Some e) selector env s))
  /\ Forall (fun ev => forall n sel r, ev = EFind (Some n) sel r ->
                        n = e \/ n ∈ below_root p chain)
            (trace (closest fuel (Some e) selector env s)).
Proof.
  intros Hst Hanc Hfuel.
  rewrite (closest_static env p selector e chain fuel s Hst Hanc Hfuel).
  cbn [result trace]. split; [|split].
  - destruct (nearest p selector chain) as [n|] eqn:Hnear.
    + left. exists n. split; [reflexivity|].
      destruct (nearest_some _ _ _ _ Hnear) as (l1 & l2 & Hsplit & Hn & _).
      split; [|exact Hn].
      rewrite Hsplit. apply elem_of_app. right. constructor.
    + right. apply nearest_is_none in Hnear.
      destruct (up_to_root_cases p chain) as [(r & Hup & Hr)|[Hbelow Hup]].
      * left. split; [reflexivity|]. split; [exact Hnear|]. eauto.
      * right. split; [reflexivity|].
        rewrite Hbelow in Hnear. split; [exact Hnear|]. split; [exact Hbelow|].
        eapply chain_from_top; [exact Hanc|reflexivity].
  - constructor; [intros n [= <-]; auto|].
    eapply Forall_impl; [apply loop_calls_nodes|].
    intros ev H n Hn. right. auto.
  - constructor; [intros n sel r [= <- _ _]; auto|].
    eapply Forall_impl; [apply loop_calls_lookups|].
    intros ev H n sel r Hev. right. eauto.
Qed.

(** From the [span] of the sample page the walk for [.dark] ends at the
    root, having touched the four ancestors only. *)
Lemma closest_terminates_witness :
  result (closest 4 (Some 4) ".dark" Sample.env Sample.start) = Ok None /\
  Forall (fun ev => forall n, event_node ev = Some n ->
                      n = 4 \/ n ∈ [3; 2; 1; 0])
         (trace (closest 4 (Some 4) ".dark" Sample.env Sample.start)).
Proof.
  assert (Hst : static Sample.env Sample.page) by (intros t; reflexivity).
  assert (Hanc : ancestors Sample.page 4 [3; 2; 1; 0])
    by (repeat constructor).
  assert (Hfuel : length [3; 2; 1; 0] <= 4) by (simpl; lia).
  destruct (closest_terminates Sample.env Sample.page ".dark" 4
              [3; 2; 1; 0] 4 Sample.start Hst Hanc Hfuel) as (Hres & Htr & _).
  split; [reflexivity|exact Htr].
Defined.

(** * The class name [closest] compares with *)

Lemma class_name_leading_dot rest :
  class_name (String "." rest) = rest.
Proof. reflexivity. Qed.

Lemma class_name_no_dot s :
  has_dot s = false -> class_name s = s.
Proof.
  unfold class_name.
  induction s as [|c r IH]; cbn [has_dot Js.remove_first]; [reflexivity|].
  intros H. apply orb_false_iff in H as [Hc Hr].
  rewrite Hc. f_equal. auto.
Qed.

(** After a leading dot the rest of the selector is kept as it is, inner
    dots included. *)
Example class_name_dotted_twice : class_name ".card.big" = "card.big".
Proof. reflexivity. Qed.

(** C5 (failing input): for the selector [div.card], which has no leading
    dot, the name compared is [divcard]: the inner dot is removed, so an
    ancestor whose class is [div.card] is not matched and one whose class is
    [divcard] is. *)
Theorem class_name_drops_inner_dot :
  class_name "div.card" = "divcard" /\
  class_name "div.card" <> "div.card" /\
  class_matches (Some "div.card") "div.card" = false /\
  class_matches (Some "divcard") "div.card" = true.
Proof. repeat split. discriminate. Qed.

(** * [I press key] *)

Lemma keyMap_lookup k code :
  keyMap !! k = Some code ->
  k ∈ supported_keys /\ exists low, code = key_code low.
Proof.
  unfold keyMap, supported_keys. cbn [list_to_map foldr uncurry fst snd].
  repeat (rewrite lookup_insert; case_decide;
          [intros [= <-]; subst k; split; [repeat constructor|eexists; reflexivity] |]).
  rewrite lookup_empty. discriminate.
Qed.

Lemma keyMap_supported k :
  k ∈ supported_keys -> exists low, keyMap !! k = Some (key_code low).
Proof.
  unfold supported_keys. rewrite !elem_of_cons, elem_of_nil.
  intros H. decompose [or] H; subst; try contradiction; eexists; reflexivity.
Qed.

Lemma key_code_truthy low : Js.truthy (key_code low) = true.
Proof. reflexivity. Qed.

(** X6: each of the six names of the table sends its key code, a
    character U+E0xx, in one call of [driver.keys], and nothing else
    happens. *)
Lemma press_key_supported k env s :
  k ∈ supported_keys ->
  exists low,
    keyMap !! k = Some (key_code low) /\
    press_key k env s =
      {| result := Ok tt; final := tick s; trace := [EKeys (KString (key_code low))] |}.
Proof.
  intros Hk. destruct (keyMap_supported k Hk) as [low Hlow].
  exists low. split; [exact Hlow|].
  unfold press_key, get_property. rewrite Hlow. reflexivity.
Qed.

Lemma press_key_supported_witness :
  exists low,
    keyMap !! "Tab" = Some (key_code low) /\
    press_key "Tab" Sample.env Sample.start =
      {| result := Ok tt;
         final := tick Sample.start;
         trace := [EKeys (KString (key_code low))] |}.
Proof.
  apply (press_key_supported "Tab" Sample.env Sample.start).
  unfold supported_keys. repeat constructor.
Defined.

Example press_key_escape_same_code : keyMap !! "Esc" = keyMap !! "Escape".
Proof. reflexivity. Qed.

(** X7: a name that is neither in the table nor a property inherited
    from [Object.prototype] is refused before anything is sent: the step
    throws [Tecla "<name>" no está soportada.] and makes no call. *)
Lemma press_key_unsupported k env s :
  k ∉ supported_keys ->
  k ∉ object_prototype ->
  press_key k env s =
    {| result := Err (Thrown (msg_unsupported_key k)); final := s; trace := [] |}.
Proof.
  intros Hk Hproto.
  unfold press_key, get_property.
  destruct (keyMap !! k) as [code|] eqn:Hlook.
  - apply keyMap_lookup in Hlook as [Hin _]. contradiction.
  - rewrite bool_decide_eq_false_2 by exact Hproto. reflexivity.
Qed.

Lemma press_key_unsupported_witness :
  press_key "F5" Sample.env Sample.start =
    {| result := Err (Thrown (msg_unsupported_key "F5"));
       final := Sample.start; trace := [] |}.
Proof.
  apply (press_key_unsupported "F5" Sample.env Sample.start).
  - unfold supported_keys. rewrite !elem_of_cons, elem_of_nil.
    intros H. decompose [or] H; try discriminate; contradiction.
  - unfold object_prototype. rewrite !elem_of_cons, elem_of_nil.
    intros H. decompose [or] H; try discriminate; contradiction.
Defined.

Example press_key_page_down :
  press_key "PageDown" Sample.env Sample.start =
    {| result := Err (Thrown (msg_unsupported_key "PageDown"));
       final := Sample.start; trace := [] |}.
Proof. reflexivity. Qed.

(** C7 (failing input): the key name [constructor] is not in the table,
    but [keyMap["constructor"]] is the function every object inherits, which
    is truthy: no error is thrown and [driver.keys] is called with it. *)
Theorem press_key_inherited_property :
  ("constructor" ∉ supported_keys) /\
  press_key "constructor" Sample.env Sample.start =
    {| result := Ok tt;
       final := tick Sample.start;
       trace := [EKeys (KObject "constructor")] |} /\
  driver_calls (trace (press_key "constructor" Sample.env Sample.start))
    = [EKeys (KObject "constructor")].
Proof.
  split; [|split; reflexivity].
  unfold supported_keys. rewrite !elem_of_cons, elem_of_nil.
  intros H. decompose [or] H; try discriminate; contradiction.
Qed.

(** * [closest] against the class test of the specification *)

(** Where the only whitespace is the space character, cutting at
    whitespace is [split(' ')]. *)
Lemma whitespace_pieces_spaces c :
  spaces_only c = true -> whitespace_pieces c = Js.split " " c.
Proof.
  induction c as [|x r IH]; cbn [spaces_only whitespace_pieces Js.split];
    [reflexivity|].
  intros H. apply andb_true_iff in H as [Hx Hr]. rewrite (IH Hr).
  destruct (is_whitespace x) eqn:Hw.
  - cbn [negb orb] in Hx. rewrite Hx. reflexivity.
  - unfold is_whitespace in Hw.
    destruct (Ascii.eqb x " "); [discriminate Hw|reflexivity].
Qed.

Lemma split_empty_only sep x : x ∈ Js.split sep EmptyString -> x = EmptyString.
Proof.
  cbn [Js.split]. intros H. apply list_elem_of_singleton in H. exact H.
Qed.

(** A selector that names a class names the same one to [closest]. *)
Lemma class_name_target selector :
  names_a_class selector -> class_name selector = target_class selector.
Proof.
  intros [_ [[r ->]|Hno]]; [reflexivity|].
  rewrite (class_name_no_dot _ Hno).
  destruct selector as [|c r]; [reflexivity|].
  cbn [has_dot] in Hno. apply orb_false_iff in Hno as [Hc _].
  cbn [target_class]. rewrite Hc. reflexivity.
Qed.

(** On such a selector and a space-separated attribute the test of
    [closest] is the test of the specification. *)
Lemma class_matches_tokens c selector :
  spaces_only c = true ->
  names_a_class selector ->
  class_matches (Some c) selector
    = bool_decide (target_class selector ∈ class_tokens (Some c)).
Proof.
  intros Hc Hsel. pose proof Hsel as [Hne _].
  unfold class_matches, class_tokens, Js.array_includes.
  rewrite (class_name_target _ Hsel), (whitespace_pieces_spaces _ Hc).
  destruct (decide (target_class selector ∈ Js.split " " c)) as [Hin|Hout].
  - rewrite (bool_decide_eq_true_2 _ Hin).
    rewrite bool_decide_eq_true_2.
    + destruct c; [|reflexivity].
      apply split_empty_only in Hin. contradiction.
    + apply list_elem_of_In, filter_In. split; [apply list_elem_of_In; exact Hin|].
      destruct (target_class selector); [contradiction|reflexivity].
  - rewrite (bool_decide_eq_false_2 _ Hout), andb_false_r.
    symmetry. apply bool_decide_eq_false_2.
    intros Hin. apply Hout.
    apply list_elem_of_In, filter_In in Hin as [Hin _].
    apply list_elem_of_In. exact Hin.
Qed.

Lemma has_class_in_class_list p selector l n :
  space_separated p l ->
  names_a_class selector ->
  n ∈ l ->
  has_class p selector n = in_class_list p selector n.
Proof.
  intros Hsep Hsel Hn. unfold has_class, in_class_list.
  destruct (page_attr p n "class") as [c|] eqn:Hattr.
  - apply class_matches_tokens; [|exact Hsel]. exact (Hsep n c Hn Hattr).
  - cbn [class_matches class_tokens]. symmetry.
    apply bool_decide_eq_false_2. apply not_elem_of_nil.
Qed.

Lemma none_has_class_in_class_list p selector l :
  space_separated p l ->
  names_a_class selector ->
  none_in_class_list p selector l ->
  none_has_class p selector l.
Proof.
  intros Hsep Hsel Hnone. unfold none_has_class, none_in_class_list in *.
  rewrite Forall_forall in *. intros m Hm.
  rewrite (has_class_in_class_list p selector l m Hsep Hsel Hm). auto.
Qed.

Lemma space_separated_app_l p l1 l2 :
  space_separated p (l1 ++ l2) -> space_separated p l1.
Proof.
  intros H n c Hn. apply H. apply elem_of_app. left. exact Hn.
Qed.




(** Outside that scope the two tests part: a line feed separates class
    tokens, but not for [split(' ')]. *)
Example class_tokens_line_feed :
  let c := "card" +:+ String (ascii_of_nat 10) "big" in
  class_tokens (Some c) = ["card"; "big"] /\
  class_matches (Some c) ".card" = false.
Proof. split; reflexivity. Qed.

(** An empty or whitespace-only attribute has no token, whatever the
    whitespace. *)
Example class_tokens_blank :
  class_tokens (Some EmptyString) = [] /\
  class_tokens (Some ("  " +:+ String (ascii_of_nat 9) EmptyString)) = [].
Proof. split; reflexivity. Qed.

(** * [I take a screenshot] *)

Lemma split_not_nil sep s : Js.split sep s <> [].
Proof.
  destruct s as [|c r]; cbn [Js.split]; [discriminate|].
  destruct (Ascii.eqb c sep); [discriminate|].
  destruct (Js.split sep r); discriminate.
Qed.

Lemma first_split_cons sep c r :
  Js.first (Js.split sep (String c r)) =
    if Ascii.eqb c sep then EmptyString else String c (Js.first (Js.split sep r)).
Proof.
  cbn [Js.split]. destruct (Ascii.eqb c sep); [reflexivity|].
  pose proof (split_not_nil sep r) as Hne.
  destruct (Js.split sep r); [contradiction|reflexivity].
Qed.

(** Cutting at the last dot does not change what precedes the first dot. *)
Lemma first_split_cut_last_dot r :
  Js.first (Js.split "." (cut_last_dot r)) = Js.first (Js.split "." r).
Proof.
  induction r as [|c r IH]; [reflexivity|].
  cbn [cut_last_dot]. rewrite first_split_cons.
  destruct (Ascii.eqb c ".") eqn:Hc; cbn [andb].
  - destruct (negb (has_dot r)); [reflexivity|].
    rewrite first_split_cons, Hc. reflexivity.
  - rewrite first_split_cons, Hc, IH. reflexivity.
Qed.

(** The screenshot's name is determined by the base name with its
    extension stripped. *)
Lemma first_split_strip_extension name :
  Js.first (Js.split "." (strip_extension name)) = Js.first (Js.split "." name).
Proof.
  destruct name as [|c r]; [reflexivity|].
  unfold strip_extension. destruct (String.eqb (String c r) ".."); [reflexivity|].
  rewrite !first_split_cons, first_split_cut_last_dot. reflexivity.
Qed.

(** With one extension and no other dot, the name is the base name with the
    extension stripped. *)
Lemma first_split_no_dot s :
  has_dot s = false -> Js.first (Js.split "." s) = s.
Proof.
  induction s as [|c r IH]; [reflexivity|].
  cbn [has_dot]. intros H. apply orb_false_iff in H as [Hc Hr].
  rewrite first_split_cons, Hc, IH by exact Hr. reflexivity.
Qed.

Lemma screenshot_name_single_extension location :
  has_dot (strip_extension (Path.basename location)) = false ->
  screenshot_name location = strip_extension (Path.basename location).
Proof.
  intros H. unfold screenshot_name.
  rewrite <- first_split_strip_extension. apply first_split_no_dot. exact H.
Qed.

Example screenshot_name_login :
  screenshot_name "features/web/login.feature" = "login".
Proof. reflexivity. Qed.

Example screenshot_name_two_dots :
  screenshot_name "features/web/login.smoke.feature" = "login" /\
  strip_extension (Path.basename "features/web/login.smoke.feature") = "login.smoke".
Proof. split; reflexivity. Qed.

(** The whole run of the step, by whether the directory is there. *)
Lemma take_screenshot_run env s :
  take_screenshot env s =
    if bool_decide (Path.dirname (screenshot_path env) ∈ dirs s) then
      {| result := Ok tt;
         final := tick s;
         trace := [ EExistsSync (Path.dirname (screenshot_path env)) true;
                    ESaveScreenshot (screenshot_path env);
                    EConsoleLog ("Screenshot guardado: " +:+ screenshot_path env) ] |}
    else
      {| result := Ok tt;
         final := {| clock := S (clock s);
                     dirs := list_to_set (made_dirs (Path.dirname (screenshot_path env)))
                             ∪ dirs s |};
         trace := [ EExistsSync (Path.dirname (screenshot_path env)) false;
                    EMkdirSync (Path.dirname (screenshot_path env));
                    EConsoleLog ("Carpeta creada: " +:+ Path.dirname (screenshot_path env));
                    ESaveScreenshot (screenshot_path env);
                    EConsoleLog ("Screenshot guardado: " +:+ screenshot_path env) ] |}.
Proof.
  unfold take_screenshot, bind, process_env_VERSION, this_featureLocation, existsSync.
  cbn [result final trace]. fold (screenshot_path env).
  destruct (bool_decide (Path.dirname (screenshot_path env) ∈ dirs s)); reflexivity.
Qed.

(** [mkdirSync] leaves its directory in place, and removes none. *)
Lemma made_dirs_self path (ds : gset string) :
  path ∈ (list_to_set (made_dirs path) ∪ ds : gset string).
Proof.
  apply elem_of_union. left. apply elem_of_list_to_set.
  unfold made_dirs. apply elem_of_cons. left. reflexivity.
Qed.

Lemma screenshot_path_determined env1 env2 :
  env_VERSION env1 = env_VERSION env2 ->
  strip_extension (Path.basename (featureLocation env1)) =
    strip_extension (Path.basename (featureLocation env2)) ->
  screenshot_path env1 = screenshot_path env2.
Proof.
  intros Hv Hn. unfold screenshot_path, screenshot_name.
  rewrite Hv. f_equal.
  rewrite <- (first_split_strip_extension (Path.basename (featureLocation env1))).
  rewrite <- (first_split_strip_extension (Path.basename (featureLocation env2))).
  rewrite Hn. reflexivity.
Qed.

(** Two runs that agree on [VERSION] and on the base name with its
    extension stripped save to the same path, whatever else differs; when
    the directory of that path exists no directory is created; and a second
    run after the first creates none. *)
Lemma take_screenshot_deterministic env1 env2 s1 s2 :
  env_VERSION env1 = env_VERSION env2 ->
  strip_extension (Path.basename (featureLocation env1)) =
    strip_extension (Path.basename (featureLocation env2)) ->
  saved_paths (trace (take_screenshot env1 s1)) = [screenshot_path env1] /\
  saved_paths (trace (take_screenshot env2 s2)) = [screenshot_path env1] /\
  (Path.dirname (screenshot_path env1) ∈ dirs s1 ->
     created_dirs (trace (take_screenshot env1 s1)) = [] /\
     dirs (final (take_screenshot env1 s1)) = dirs s1) /\
  created_dirs (trace (take_screenshot env2 (final (take_screenshot env1 s1)))) = [] /\
  saved_paths (trace (take_screenshot env2 (final (take_screenshot env1 s1))))
    = [screenshot_path env1].
Proof.
  intros Hv Hn.
  pose proof (screenshot_path_determined env1 env2 Hv Hn) as Hpath.
  rewrite !take_screenshot_run. rewrite <- Hpath.
  split; [|split; [|split; [|split]]].
  - destruct (bool_decide _); reflexivity.
  - destruct (bool_decide _); reflexivity.
  - intros Hin. rewrite bool_decide_eq_true_2 by exact Hin. split; reflexivity.
  - destruct (bool_decide (Path.dirname (screenshot_path env1) ∈ dirs s1)) eqn:Hd;
      cbn [final dirs tick].
    + rewrite Hd. reflexivity.
    + rewrite bool_decide_eq_true_2 by apply made_dirs_self. reflexivity.
  - destruct (bool_decide (Path.dirname (screenshot_path env1) ∈ dirs s1)) eqn:Hd;
      cbn [final dirs tick].
    + rewrite Hd. reflexivity.
    + rewrite bool_decide_eq_true_2 by apply made_dirs_self. reflexivity.
Qed.

Lemma append_assoc (a b c : string) : a +:+ (b +:+ c) = (a +:+ b) +:+ c.
Proof.
  induction a as [|x a IH]; [reflexivity|].
  change (String x a +:+ (b +:+ c)) with (String x (a +:+ (b +:+ c))).
  rewrite IH. reflexivity.
Qed.

(** For a feature file whose base name has a single extension, the step
    does what is asked of it: the file is
    [screenshots/<version>/<base name without its extension>.png], where
    the version is [VERSION] when it is set (and not empty) and [default]
    when it is not; it is saved once; and when its directory exists no
    directory is created. *)
Lemma take_screenshot_single_extension env s :
  has_dot (strip_extension (Path.basename (featureLocation env))) = false ->
  (forall v, env_VERSION env = Some v -> v <> EmptyString ->
     screenshot_path env =
       "screenshots/" +:+ v +:+ "/"
       +:+ strip_extension (Path.basename (featureLocation env)) +:+ ".png") /\
  (env_VERSION env = None ->
     screenshot_path env =
       "screenshots/default/"
       +:+ strip_extension (Path.basename (featureLocation env)) +:+ ".png") /\
  saved_paths (trace (take_screenshot env s)) = [screenshot_path env] /\
  (Path.dirname (screenshot_path env) ∈ dirs s ->
     created_dirs (trace (take_screenshot env s)) = [] /\
     dirs (final (take_screenshot env s)) = dirs s).
Proof.
  intros Hext.
  pose proof (screenshot_name_single_extension _ Hext) as Hname.
  rewrite take_screenshot_run.
  split; [|split; [|split]].
  - intros v Hv Hne. unfold screenshot_path, screenshot_file.
    rewrite Hv, Hname. cbn [version_or_default].
    destruct v; [contradiction|reflexivity].
  - intros Hv. unfold screenshot_path, screenshot_file.
    rewrite Hv, Hname. reflexivity.
  - destruct (bool_decide _); reflexivity.
  - intros Hin. rewrite bool_decide_eq_true_2 by exact Hin. split; reflexivity.
Qed.

Example take_screenshot_login_v5 :
  trace (take_screenshot Sample.env_v5 Sample.with_v5) =
    [ EExistsSync "screenshots/v5" true;
      ESaveScreenshot "screenshots/v5/login.png";
      EConsoleLog "Screenshot guardado: screenshots/v5/login.png" ].
Proof. vm_compute. reflexivity. Qed.

(** C8 (failing input): the feature file
    [features/web/login.smoke.feature] run with [VERSION=v5].  Its base
    name with the extension stripped is [login.smoke], but the screenshot
    is saved as [screenshots/v5/login.png]: the name is cut at its first
    dot, not at its extension, with the directory missing or present; it is
    the file that the feature [login.feature] saves to. *)
Theorem take_screenshot_cuts_at_first_dot :
  strip_extension (Path.basename (featureLocation Sample.env_smoke)) = "login.smoke" /\
  trace (take_screenshot Sample.env_smoke Sample.start) =
    [ EExistsSync "screenshots/v5" false;
      EMkdirSync "screenshots/v5";
      EConsoleLog "Carpeta creada: screenshots/v5";
      ESaveScreenshot "screenshots/v5/login.png";
      EConsoleLog "Screenshot guardado: screenshots/v5/login.png" ] /\
  trace (take_screenshot Sample.env_smoke Sample.with_v5) =
    [ EExistsSync "screenshots/v5" true;
      ESaveScreenshot "screenshots/v5/login.png";
      EConsoleLog "Screenshot guardado: screenshots/v5/login.png" ] /\
  saved_paths (trace (take_screenshot Sample.env_smoke Sample.start))
    <> ["screenshots/v5/login.smoke.png"] /\
  saved_paths (trace (take_screenshot Sample.env_smoke Sample.start))
    = saved_paths (trace (take_screenshot Sample.env_v5 Sample.start)).
Proof.
  split; [reflexivity|].
  split; [vm_compute; reflexivity|].
  split; [vm_compute; reflexivity|].
  split; [vm_compute; discriminate|].
  vm_compute. reflexivity.
Qed.

(** * Waiting and polling *)

(** Two states that differ at most in how the clock is written. *)
Ltac clock_eq := unfold ticks, tick; cbn [clock dirs]; f_equal; lia.

Lemma ticks_tick n s : ticks n (tick s) = ticks (S n) s.
Proof. unfold ticks, tick. cbn [clock dirs]. f_equal. lia. Qed.

Lemma tick_ticks s : tick s = ticks 1 s.
Proof. reflexivity. Qed.

(** [sample] stops at the first instant at which the observation holds. *)
Lemma sample_run n obs env :
  forall s, exists k b,
    k <= n /\
    Driver.sample n obs env s =
      {| result := Ok b; final := ticks (S k) s; trace := [] |} /\
    (b = true -> obs (timeline env (k + clock s)) = true) /\
    (b = false -> forall i, i <= n -> obs (timeline env (i + clock s)) = false).
Proof.
  induction n as [|n IH]; intros s; cbn [Driver.sample].
  - destruct (obs (timeline env (clock s))) eqn:Hobs.
    + exists 0, true. split; [lia|]. split.
      * unfold bind, now, advance. cbn [result final trace]. rewrite Hobs. reflexivity.
      * split; [intros _; exact Hobs|discriminate].
    + exists 0, false. split; [lia|]. split.
      * unfold bind, now, advance. cbn [result final trace]. rewrite Hobs. reflexivity.
      * split; [discriminate|]. intros _ i Hi.
        replace i with 0 by lia. exact Hobs.
  - destruct (obs (timeline env (clock s))) eqn:Hobs.
    + exists 0, true. split; [lia|]. split.
      * unfold bind, now, advance. cbn [result final trace]. rewrite Hobs. reflexivity.
      * split; [intros _; exact Hobs|discriminate].
    + destruct (IH (tick s)) as (k & b & Hk & Hrun & Htrue & Hfalse).
      exists (S k), b. split; [lia|]. split.
      * unfold bind at 1 2, now, advance. cbn [result final trace]. rewrite Hobs.
        fold (tick s). rewrite Hrun. cbn [result final trace app].
        rewrite ticks_tick. reflexivity.
      * split.
        -- intros Hb. specialize (Htrue Hb). cbn [tick clock] in Htrue.
           replace (S k + clock s) with (k + S (clock s)) by lia. exact Htrue.
        -- intros Hb i Hi. destruct i as [|i].
           ++ exact Hobs.
           ++ specialize (Hfalse Hb i ltac:(lia)). cbn [tick clock] in Hfalse.
              replace (S i + clock s) with (i + S (clock s)) by lia. exact Hfalse.
Qed.

(** A wait either reports success, and then the element was displayed at
    the instant last looked at, or times out. *)
Lemma waitForDisplayed_run h timeout env s :
  exists (k : nat) (ok : bool),
    Driver.waitForDisplayed h timeout env s =
      {| result := if ok then Ok tt else Err (DisplayedTimeout h timeout);
         final := ticks (S k) s;
         trace := [EWaitForDisplayed h timeout ok] |} /\
    (ok = true -> page_displayed (timeline env (k + clock s)) h = true).
Proof.
  destruct (sample_run (polls env timeout) (fun p => page_displayed p h) env s)
    as (k & b & _ & Hrun & Htrue & _).
  exists k, b. split; [|exact Htrue].
  unfold Driver.waitForDisplayed.
  erewrite bind_ok by reflexivity.
  erewrite bind_ok by exact Hrun.
  destruct b; reflexivity.
Qed.

Lemma waitForClickable_run h timeout env s :
  exists (k : nat) (ok : bool),
    Driver.waitForClickable h timeout env s =
      {| result := if ok then Ok tt else Err (ClickableTimeout h timeout);
         final := ticks (S k) s;
         trace := [EWaitForClickable h timeout ok] |} /\
    (ok = true -> page_clickable (timeline env (k + clock s)) h = true).
Proof.
  destruct (sample_run (polls env timeout) (fun p => page_clickable p h) env s)
    as (k & b & _ & Hrun & Htrue & _).
  exists k, b. split; [|exact Htrue].
  unfold Driver.waitForClickable.
  erewrite bind_ok by reflexivity.
  erewrite bind_ok by exact Hrun.
  destruct b; reflexivity.
Qed.

Lemma readings_cons env ev c k :
  readings env ev c (S k) = ev (timeline env c) :: readings env ev (S c) k.
Proof.
  unfold readings. cbn [seq map]. f_equal.
  rewrite <- seq_shift, map_map. apply map_ext. intros i.
  f_equal. f_equal. lia.
Qed.

Lemma readings_snoc env ev c k :
  readings env ev c (S k) = readings env ev c k ++ [ev (timeline env (k + c))].
Proof.
  unfold readings. rewrite seq_S, map_app. reflexivity.
Qed.

Lemma waitUntil_eq cond timeout msg env s :
  Driver.waitUntil cond timeout msg env s =
    Driver.waitUntil_loop (polls env timeout) cond msg env s.
Proof.
  unfold Driver.waitUntil, bind, budget. cbn [result final trace app].
  symmetry. apply outcome_eta.
Qed.

(** Polling with a condition that reads the page once: either the
    condition first holds at the [k]-th reading, within the budget, and the
    poll succeeds there; or it holds at no reading of the budget and the
    poll fails with the message it was given. *)
Lemma waitUntil_loop_probe env cond obs ev msg :
  probe env cond obs ev ->
  forall n s,
    (exists k,
       k <= n /\
       (forall i, i < k -> obs (timeline env (i + clock s)) = false) /\
       obs (timeline env (k + clock s)) = true /\
       Driver.waitUntil_loop n cond msg env s =
         {| result := Ok tt;
            final := ticks (S k) s;
            trace := readings env ev (clock s) (S k) |})
    \/ ((forall i, i <= n -> obs (timeline env (i + clock s)) = false) /\
        Driver.waitUntil_loop n cond msg env s =
          {| result := Err (WaitUntilTimeout msg);
             final := ticks (S n) s;
             trace := readings env ev (clock s) (S n) |}).
Proof.
  intros Hp n. induction n as [|n IH]; intros s.
  - destruct (obs (timeline env (clock s))) eqn:Hobs.
    + left. exists 0. split; [lia|]. split; [intros i Hi; lia|].
      split; [exact Hobs|].
      cbn [Driver.waitUntil_loop]. erewrite bind_ok by apply Hp.
      rewrite Hobs. reflexivity.
    + right. split.
      * intros i Hi. replace i with 0 by lia. exact Hobs.
      * cbn [Driver.waitUntil_loop]. erewrite bind_ok by apply Hp.
        rewrite Hobs. reflexivity.
  - destruct (obs (timeline env (clock s))) eqn:Hobs.
    + left. exists 0. split; [lia|]. split; [intros i Hi; lia|].
      split; [exact Hobs|].
      cbn [Driver.waitUntil_loop]. erewrite bind_ok by apply Hp.
      rewrite Hobs. reflexivity.
    + assert (Hstep : Driver.waitUntil_loop (S n) cond msg env s =
                {| result := result (Driver.waitUntil_loop n cond msg env (tick s));
                   final := final (Driver.waitUntil_loop n cond msg env (tick s));
                   trace := ev (timeline env (clock s)) ::
                            trace (Driver.waitUntil_loop n cond msg env (tick s)) |}).
      { cbn [Driver.waitUntil_loop]. erewrite bind_ok by apply Hp.
        rewrite Hobs. reflexivity. }
      destruct (IH (tick s)) as [(k & Hk & Hbefore & Hat & Hrun)|[Hnever Hrun]];
        cbn [tick clock] in *.
      * left. exists (S k). split; [lia|]. split.
        { intros i Hi. destruct i as [|i]; [exact Hobs|].
          replace (S i + clock s) with (i + S (clock s)) by lia.
          apply Hbefore. lia. }
        split.
        { replace (S k + clock s) with (k + S (clock s)) by lia. exact Hat. }
        rewrite Hstep, Hrun. cbn [result final trace].
        rewrite ticks_tick, (readings_cons env ev (clock s) (S k)). reflexivity.
      * right. split.
        { intros i Hi. destruct i as [|i]; [exact Hobs|].
          replace (S i + clock s) with (i + S (clock s)) by lia.
          apply Hnever. lia. }
        rewrite Hstep, Hrun. cbn [result final trace].
        rewrite ticks_tick, (readings_cons env ev (clock s) (S n)). reflexivity.
Qed.

Lemma url_condition_probe env expectedUrl :
  probe env (url_condition expectedUrl)
        (fun p => String.eqb (page_url p) expectedUrl)
        (fun p => EGetUrl (page_url p)).
Proof. intros s. reflexivity. Qed.

Lemma text_condition_probe env h expectedText :
  probe env (text_condition (Some h) expectedText)
        (fun p => Js.includes (page_text p h) expectedText)
        (fun p => EGetText h (page_text p h)).
Proof. intros s. reflexivity. Qed.

Lemma attribute_condition_probe env h attributeName expectedValue :
  probe env (attribute_condition (Some h) attributeName expectedValue)
        (fun p => attr_and_includes (page_attr p h attributeName) expectedValue)
        (fun p => EGetAttribute h attributeName (page_attr p h attributeName)).
Proof. intros s. reflexivity. Qed.

(** * The verification steps *)

(** What [assert.strictEqual] throws. *)
Lemma assert_strictEqual_run actual expected env s :
  assert_strictEqual actual expected env s =
    {| result := if String.eqb actual expected then Ok tt
                 else Err (AssertionError (strictEqualMessage env actual expected));
       final := s; trace := [] |}.
Proof. unfold assert_strictEqual. destruct (String.eqb actual expected); reflexivity. Qed.

Lemma assert_ok_run v msg env s :
  assert_ok v msg env s =
    {| result := if v then Ok tt else Err (AssertionError msg);
       final := s; trace := [] |}.
Proof. destruct v; reflexivity. Qed.

(** ** The URL step *)

(** Either the URL first equals the expected one at the [k]-th reading:
    then it is read once more, and that reading decides; or it never does
    within the budget, and the step times out. *)
Lemma should_be_on_page_run expectedUrl env s :
  (exists k,
     k <= polls env 10000 /\
     (forall i, i < k ->
        String.eqb (page_url (timeline env (i + clock s))) expectedUrl = false) /\
     String.eqb (page_url (timeline env (k + clock s))) expectedUrl = true /\
     should_be_on_page expectedUrl env s =
       {| result :=
            if String.eqb (page_url (timeline env (S k + clock s))) expectedUrl
            then Ok tt
            else Err (AssertionError
              (strictEqualMessage env
                 (page_url (timeline env (S k + clock s))) expectedUrl));
          final := ticks (S (S k)) s;
          trace := readings env (fun p => EGetUrl (page_url p)) (clock s) (S (S k)) |})
  \/ ((forall i, i <= polls env 10000 ->
         String.eqb (page_url (timeline env (i + clock s))) expectedUrl = false) /\
      should_be_on_page expectedUrl env s =
        {| result := Err (WaitUntilTimeout (msg_url_timeout expectedUrl));
           final := ticks (S (polls env 10000)) s;
           trace := readings env (fun p => EGetUrl (page_url p)) (clock s)
                             (S (polls env 10000)) |}).
Proof.
  destruct (waitUntil_loop_probe env _ _ _ (msg_url_timeout expectedUrl)
              (url_condition_probe env expectedUrl) (polls env 10000) s)
    as [(k & Hk & Hbefore & Hat & Hrun)|[Hnever Hrun]].
  - left. exists k. repeat (split; [assumption|]).
    unfold should_be_on_page.
    erewrite bind_ok by (rewrite waitUntil_eq; exact Hrun).
    erewrite bind_ok by apply getUrl_run.
    rewrite assert_strictEqual_run. cbn [result final trace ticks tick clock dirs].
    rewrite (readings_snoc _ _ _ (S k)). reflexivity.
  - right. split; [assumption|].
    unfold should_be_on_page.
    erewrite bind_err by (rewrite waitUntil_eq; exact Hrun).
    reflexivity.
Qed.

(** ** The text steps *)

Lemma expect_text_run h expectedText elementSelector env s :
  (exists k,
     k <= polls env 10000 /\
     (forall i, i < k ->
        Js.includes (page_text (timeline env (i + clock s)) h) expectedText = false) /\
     Js.includes (page_text (timeline env (k + clock s)) h) expectedText = true /\
     expect_text (Some h) expectedText elementSelector env s =
       {| result :=
            if Js.includes (page_text (timeline env (S k + clock s)) h) expectedText
            then Ok tt
            else Err (AssertionError (msg_text_missing expectedText));
          final := ticks (S (S k)) s;
          trace := readings env (fun p => EGetText h (page_text p h)) (clock s) (S (S k))
                   ++ [EConsoleLog (msg_final_text (page_text (timeline env (S k + clock s)) h))] |})
  \/ ((forall i, i <= polls env 10000 ->
         Js.includes (page_text (timeline env (i + clock s)) h) expectedText = false) /\
      expect_text (Some h) expectedText elementSelector env s =
        {| result := Err (WaitUntilTimeout (msg_text_timeout expectedText elementSelector));
           final := ticks (S (polls env 10000)) s;
           trace := readings env (fun p => EGetText h (page_text p h)) (clock s)
                             (S (polls env 10000)) |}).
Proof.
  destruct (waitUntil_loop_probe env _ _ _ (msg_text_timeout expectedText elementSelector)
              (text_condition_probe env h expectedText) (polls env 10000) s)
    as [(k & Hk & Hbefore & Hat & Hrun)|[Hnever Hrun]].
  - left. exists k. repeat (split; [assumption|]).
    unfold expect_text.
    erewrite bind_ok by (rewrite waitUntil_eq; exact Hrun).
    erewrite bind_ok by reflexivity.
    erewrite bind_ok by apply getText_run.
    erewrite bind_ok by reflexivity.
    rewrite assert_ok_run. cbn [result final trace ticks tick clock dirs].
    rewrite (readings_snoc _ _ _ (S k)).
    rewrite <- !app_assoc. reflexivity.
  - right. split; [assumption|].
    unfold expect_text.
    erewrite bind_err by (rewrite waitUntil_eq; exact Hrun).
    reflexivity.
Qed.

(** The three text steps end in the same lines. *)
Lemma should_see_in_element_tail expectedText elementSelector env s :
  should_see_in_element expectedText elementSelector env s =
    bind (Driver.find None elementSelector)
         (fun targetElement => expect_text targetElement expectedText elementSelector) env s.
Proof. reflexivity. Qed.

Lemma should_see_in_element_in_parent_tail fuel expectedText elementSelector parentSelector env s :
  should_see_in_element_in_parent fuel expectedText elementSelector parentSelector env s =
    (baseElement <- Driver.find None elementSelector ;;
     parentElement <- closest fuel baseElement parentSelector ;;
     p <- assert_ok_handle parentElement (msg_no_parent parentSelector elementSelector) ;;
     targetElement <- Driver.find (Some p) elementSelector ;;
     expect_text targetElement expectedText elementSelector) env s.
Proof. reflexivity. Qed.

Lemma should_see_in_element_in_parent_with_child_tail
    fuel expectedText elementSelector parentSelector childSelector env s :
  should_see_in_element_in_parent_with_child
      fuel expectedText elementSelector parentSelector childSelector env s =
    (childElement <- Driver.find None childSelector ;;
     c <- method_on childElement "waitForDisplayed" ;;
     Driver.waitForDisplayed c 10000 ;;;
     parentElement <- closest fuel childElement parentSelector ;;
     p <- assert_ok_handle parentElement (msg_no_parent parentSelector childSelector) ;;
     targetElement <- find p elementSelector ;;
     target <- assert_ok_handle targetElement (msg_no_element elementSelector parentSelector) ;;
     expect_text (Some target) expectedText elementSelector) env s.
Proof. reflexivity. Qed.

(** ** The attribute step *)

Lemma should_see_in_attribute_run expectedValue attributeName selector h env s :
  head (page_query (timeline env (clock s)) None selector) = Some h ->
  (exists k,
     k <= polls env 10000 /\
     (forall i, i < k ->
        attr_and_includes (page_attr (timeline env (i + S (clock s))) h attributeName)
                          expectedValue = false) /\
     attr_and_includes (page_attr (timeline env (k + S (clock s))) h attributeName)
                       expectedValue = true /\
     should_see_in_attribute expectedValue attributeName selector env s =
       {| result :=
            attribute_verdict attributeName expectedValue
              (page_attr (timeline env (S k + S (clock s))) h attributeName);
          final := ticks (S (S (S k))) s;
          trace :=
            EFind None selector (Some h) ::
            readings env (fun p => EGetAttribute h attributeName (page_attr p h attributeName))
                     (S (clock s)) (S (S k))
            ++ [EConsoleLog (msg_final_attr attributeName
                  (page_attr (timeline env (S k + S (clock s))) h attributeName))] |})
  \/ ((forall i, i <= polls env 10000 ->
         attr_and_includes (page_attr (timeline env (i + S (clock s))) h attributeName)
                           expectedValue = false) /\
      should_see_in_attribute expectedValue attributeName selector env s =
        {| result := Err (WaitUntilTimeout
                            (msg_attr_timeout expectedValue attributeName selector));
           final := ticks (S (S (polls env 10000))) s;
           trace :=
             EFind None selector (Some h) ::
             readings env (fun p => EGetAttribute h attributeName (page_attr p h attributeName))
                      (S (clock s)) (S (polls env 10000)) |}).
Proof.
  intros Hfound.
  destruct (waitUntil_loop_probe env _ _ _
              (msg_attr_timeout expectedValue attributeName selector)
              (attribute_condition_probe env h attributeName expectedValue)
              (polls env 10000) (tick s))
    as [(k & Hk & Hbefore & Hat & Hrun)|[Hnever Hrun]]; cbn [tick clock] in *.
  - left. exists k. repeat (split; [assumption|]).
    unfold should_see_in_attribute.
    erewrite bind_ok by apply find_run. rewrite Hfound.
    erewrite bind_ok by (rewrite waitUntil_eq; exact Hrun).
    erewrite bind_ok by reflexivity.
    erewrite bind_ok by apply getAttribute_run.
    erewrite bind_ok by reflexivity.
    cbn [ticks tick clock dirs].
    replace (S (k + S (clock s))) with (S k + S (clock s)) by reflexivity.
    rewrite (readings_snoc _ _ _ (S k)).
    destruct (page_attr (timeline env (S k + S (clock s))) h attributeName) as [a|] eqn:Ha.
    + cbn [includes_on attribute_verdict].
      erewrite bind_ok by reflexivity. rewrite assert_ok_run.
      cbn [result final trace app]. rewrite <- !app_assoc.
      f_equal. clock_eq.
    + cbn [includes_on attribute_verdict].
      erewrite bind_err by reflexivity.
      cbn [result final trace app]. rewrite <- !app_assoc.
      f_equal. clock_eq.
  - right. split; [assumption|].
    unfold should_see_in_attribute.
    erewrite bind_ok by apply find_run. rewrite Hfound.
    erewrite bind_err by (rewrite waitUntil_eq; exact Hrun).
    cbn [result final trace app].
    f_equal. clock_eq.
Qed.

(** ** The value read again *)

(** C10: in the attribute step the condition polled takes a [null]
    attribute for "not yet" and goes on polling, but the value read again
    after the poll is asked for [includes] unguarded: whenever the element
    is found, the poll first succeeds at its [k]-th reading (so the
    attribute is a string there), and the attribute is [null] at the
    reading that follows, the step fails with the [TypeError] of a member
    access on [null], and not with the assertion's error. *)
Theorem attribute_null_at_recheck expectedValue attributeName selector h env s k :
  head (page_query (timeline env (clock s)) None selector) = Some h ->
  k <= polls env 10000 ->
  (forall i, i < k ->
     attr_and_includes (page_attr (timeline env (i + S (clock s))) h attributeName)
                       expectedValue = false) ->
  attr_and_includes (page_attr (timeline env (k + S (clock s))) h attributeName)
                    expectedValue = true ->
  page_attr (timeline env (S k + S (clock s))) h attributeName = None ->
  attr_and_includes None expectedValue = false /\
  (exists a, page_attr (timeline env (k + S (clock s))) h attributeName = Some a) /\
  result (should_see_in_attribute expectedValue attributeName selector env s)
    = Err (TypeError "Cannot read properties of null (reading 'includes')") /\
  (forall msg,
     result (should_see_in_attribute expectedValue attributeName selector env s)
       <> Err (AssertionError msg)).
Proof.
  intros Hfound Hk Hbefore Hat Hnull.
  split; [reflexivity|].
  split.
  { destruct (page_attr (timeline env (k + S (clock s))) h attributeName) as [a|];
      [eauto|discriminate Hat]. }
  assert (Hres : result (should_see_in_attribute expectedValue attributeName selector env s)
                 = Err (TypeError "Cannot read properties of null (reading 'includes')")).
  { destruct (should_see_in_attribute_run expectedValue attributeName selector h env s Hfound)
      as [(k' & Hk' & Hbefore' & Hat' & Hrun)|[Hnever _]].
    - assert (k' = k) as ->.
      { destruct (lt_eq_lt_dec k' k) as [[Hlt|Heq]|Hgt]; [|exact Heq|].
        - rewrite (Hbefore k' Hlt) in Hat'. discriminate Hat'.
        - rewrite (Hbefore' k Hgt) in Hat. discriminate Hat. }
      rewrite Hrun. cbn [result]. rewrite Hnull. reflexivity.
    - rewrite (Hnever k Hk) in Hat. discriminate Hat. }
  split; [exact Hres|]. intros msg. rewrite Hres. discriminate.
Qed.

(** The label of the sample [span] is there at the first reading of the
    poll and gone at the next. *)
Lemma attribute_null_at_recheck_witness :
  result (should_see_in_attribute "Saved" "aria-label" "#x" Sample.env_flicker Sample.start)
    = Err (TypeError "Cannot read properties of null (reading 'includes')").
Proof.
  assert (Hk : 0 <= polls Sample.env_flicker 10000) by (vm_compute; lia).
  assert (Hbefore : forall i, i < 0 ->
            attr_and_includes
              (page_attr (timeline Sample.env_flicker (i + S (clock Sample.start))) 4
                         "aria-label") "Saved" = false)
    by (intros i Hi; lia).
  destruct (attribute_null_at_recheck "Saved" "aria-label" "#x" 4
              Sample.env_flicker Sample.start 0 eq_refl Hk Hbefore eq_refl eq_refl)
    as (_ & _ & Hres & _).
  exact Hres.
Defined.

(** C4 (failing input): [I should see "Save" in attribute "aria-label" of
    element "#x"], where the label is there when the poll reads it and gone
    when it is read again.  The poll succeeds at its first reading, the
    value read again is [null], and the step ends in a [TypeError]: the
    assertion that would report the mismatch is never reached. *)
Theorem attribute_recheck_not_asserted :
  should_see_in_attribute "Save" "aria-label" "#x" Sample.env_flicker Sample.start =
    {| result := Err (TypeError "Cannot read properties of null (reading 'includes')");
       final := ticks 3 Sample.start;
       trace :=
         [ EFind None "#x" (Some 4);
           EGetAttribute 4 "aria-label" (Some "Saved");
           EGetAttribute 4 "aria-label" None;
           EConsoleLog (msg_final_attr "aria-label" None) ] |}.
Proof. vm_compute. reflexivity. Qed.

Lemma first_holds_at_unique env obs c k k' :
  first_holds_at env obs c k -> first_holds_at env obs c k' -> k = k'.
Proof.
  intros [Hbefore Hat] [Hbefore' Hat'].
  destruct (lt_eq_lt_dec k k') as [[Hlt|Heq]|Hgt]; [|exact Heq|].
  - rewrite (Hbefore' k Hlt) in Hat. discriminate Hat.
  - rewrite (Hbefore k' Hgt) in Hat'. discriminate Hat'.
Qed.

(** X12: the URL step succeeds only when the URL, read once more after
    the poll has seen the expected one, is still equal to it; when it is
    not, the step fails with the error of [assert.strictEqual]. *)
Lemma should_be_on_page_rechecks expectedUrl env s :
  (result (should_be_on_page expectedUrl env s) = Ok tt ->
   exists k,
     first_holds_at env (fun p => String.eqb (page_url p) expectedUrl) (clock s) k /\
     page_url (timeline env (S k + clock s)) = expectedUrl /\
     trace (should_be_on_page expectedUrl env s) =
       readings env (fun p => EGetUrl (page_url p)) (clock s) (S (S k))) /\
  (forall k,
     k <= polls env 10000 ->
     first_holds_at env (fun p => String.eqb (page_url p) expectedUrl) (clock s) k ->
     page_url (timeline env (S k + clock s)) <> expectedUrl ->
     exists msg, result (should_be_on_page expectedUrl env s) = Err (AssertionError msg)).
Proof.
  destruct (should_be_on_page_run expectedUrl env s)
    as [(k & Hk & Hbefore & Hat & Hrun)|[Hnever Hrun]]; rewrite Hrun; cbn [result trace].
  - split.
    + intros Hok. exists k. split; [split; assumption|].
      destruct (String.eqb (page_url (timeline env (S k + clock s))) expectedUrl) eqn:Heq;
        [|discriminate Hok].
      apply String.eqb_eq in Heq. auto.
    + intros k' _ Hfirst Hne.
      rewrite <- (first_holds_at_unique env _ (clock s) k k' (conj Hbefore Hat) Hfirst) in Hne.
      apply String.eqb_neq in Hne. rewrite Hne. eauto.
  - split; [discriminate|].
    intros k Hk [_ Hat]. rewrite (Hnever k Hk) in Hat. discriminate Hat.
Qed.

(** So do the text steps, from [waitUntil] on. *)
Lemma expect_text_rechecks h expectedText elementSelector env s :
  (result (expect_text (Some h) expectedText elementSelector env s) = Ok tt ->
   exists k,
     first_holds_at env (fun p => Js.includes (page_text p h) expectedText) (clock s) k /\
     Js.includes (page_text (timeline env (S k + clock s)) h) expectedText = true) /\
  (forall k,
     k <= polls env 10000 ->
     first_holds_at env (fun p => Js.includes (page_text p h) expectedText) (clock s) k ->
     Js.includes (page_text (timeline env (S k + clock s)) h) expectedText = false ->
     result (expect_text (Some h) expectedText elementSelector env s)
       = Err (AssertionError (msg_text_missing expectedText))).
Proof.
  destruct (expect_text_run h expectedText elementSelector env s)
    as [(k & Hk & Hbefore & Hat & Hrun)|[Hnever Hrun]]; rewrite Hrun; cbn [result trace].
  - split.
    + intros Hok. exists k. split; [split; assumption|].
      destruct (Js.includes (page_text (timeline env (S k + clock s)) h) expectedText);
        [reflexivity|discriminate Hok].
    + intros k' _ Hfirst Hne.
      rewrite <- (first_holds_at_unique env _ (clock s) k k' (conj Hbefore Hat) Hfirst) in Hne.
      rewrite Hne. reflexivity.
  - split; [discriminate|].
    intros k Hk [_ Hat]. rewrite (Hnever k Hk) in Hat. discriminate Hat.
Qed.

(** X14: once its element is found, the attribute step succeeds only
    when the attribute, read once more after the poll, is a string that
    contains the expected value; when it is a string that does not, the
    step fails with the assertion's error, whose message quotes the
    attribute, the expected value and the value found. *)
Lemma should_see_in_attribute_rechecks expectedValue attributeName selector h env s :
  head (page_query (timeline env (clock s)) None selector) = Some h ->
  (result (should_see_in_attribute expectedValue attributeName selector env s) = Ok tt ->
   exists k a,
     first_holds_at env
       (fun p => attr_and_includes (page_attr p h attributeName) expectedValue)
       (S (clock s)) k /\
     page_attr (timeline env (S k + S (clock s))) h attributeName = Some a /\
     Js.includes a expectedValue = true) /\
  (forall k a,
     k <= polls env 10000 ->
     first_holds_at env
       (fun p => attr_and_includes (page_attr p h attributeName) expectedValue)
       (S (clock s)) k ->
     page_attr (timeline env (S k + S (clock s))) h attributeName = Some a ->
     Js.includes a expectedValue = false ->
     result (should_see_in_attribute expectedValue attributeName selector env s)
       = Err (AssertionError (msg_attr_missing attributeName expectedValue (Some a)))).
Proof.
  intros Hfound.
  destruct (should_see_in_attribute_run expectedValue attributeName selector h env s Hfound)
    as [(k & Hk & Hbefore & Hat & Hrun)|[Hnever Hrun]]; rewrite Hrun; cbn [result trace].
  - split.
    + intros Hok. exists k.
      destruct (page_attr (timeline env (S k + S (clock s))) h attributeName) as [a|];
        [|discriminate Hok].
      exists a. split; [split; assumption|]. split; [reflexivity|].
      cbn [attribute_verdict] in Hok.
      destruct (Js.includes a expectedValue); [reflexivity|discriminate Hok].
    + intros k' a _ Hfirst Ha Hne.
      rewrite <- (first_holds_at_unique env _ (S (clock s)) k k' (conj Hbefore Hat) Hfirst)
        in Ha.
      rewrite Ha. cbn [attribute_verdict]. rewrite Hne. reflexivity.
  - split; [discriminate|].
    intros k a Hk [_ Hat]. rewrite (Hnever k Hk) in Hat. discriminate Hat.
Qed.

(** * The scoped steps *)

Lemma bind_assoc {A B C} (m : M A) (f : A -> M B) (g : B -> M C) env s :
  bind (bind m f) g env s = bind m (fun x => bind (f x) g) env s.
Proof.
  unfold bind.
  destruct (m env s) as [[a|e] s1 t1]; cbn [result final trace]; [|reflexivity].
  destruct (f a env s1) as [[b|e] s2 t2]; cbn [result final trace]; [|reflexivity].
  destruct (g b env s2) as [r s3 t3]; cbn [result final trace].
  rewrite app_assoc. reflexivity.
Qed.

(** ** What occurs in a message *)

Lemma prefix_refl s : String.prefix s s = true.
Proof. induction s as [|c r IH]; cbn; [reflexivity|]. destruct (ascii_dec c c); congruence. Qed.

Lemma prefix_nil s : String.prefix EmptyString s = true.
Proof. destruct s; reflexivity. Qed.

Lemma prefix_append x a b :
  String.prefix x a = true -> String.prefix x (a +:+ b) = true.
Proof.
  revert a. induction x as [|c x IH]; intros a H; [apply prefix_nil|].
  destruct a as [|d a]; [discriminate H|].
  change (String d a +:+ b) with (String d (a +:+ b)).
  simpl in *.
  destruct (ascii_dec c d); [apply IH; exact H|discriminate H].
Qed.

Lemma includes_refl s : Js.includes s s = true.
Proof. destruct s; cbn [Js.includes]; rewrite prefix_refl; reflexivity. Qed.

Lemma includes_append_l a b x :
  Js.includes a x = true -> Js.includes (a +:+ b) x = true.
Proof.
  induction a as [|c a IH]; intros H.
  - cbn [Js.includes] in H. rewrite orb_false_r in H.
    destruct x; [|discriminate H].
    change (EmptyString +:+ b) with b. destruct b; reflexivity.
  - cbn [Js.includes] in H.
    change (String c a +:+ b) with (String c (a +:+ b)). cbn [Js.includes].
    apply orb_true_iff in H as [H|H].
    + change (String c (a +:+ b)) with (String c a +:+ b).
      rewrite (prefix_append _ _ _ H). reflexivity.
    + rewrite (IH H). apply orb_true_r.
Qed.

Lemma includes_append_r a b x :
  Js.includes b x = true -> Js.includes (a +:+ b) x = true.
Proof.
  intros H. induction a as [|c a IH]; [exact H|].
  change (String c a +:+ b) with (String c (a +:+ b)). cbn [Js.includes].
  rewrite IH. apply orb_true_r.
Qed.

Lemma names_quoted s : names (Js.quoted s) s.
Proof.
  unfold names, Js.quoted. apply includes_append_r, includes_append_l, includes_refl.
Qed.

Lemma names_append_l a b x : names a x -> names (a +:+ b) x.
Proof. apply includes_append_l. Qed.

Lemma names_append_r a b x : names b x -> names (a +:+ b) x.
Proof. apply includes_append_r. Qed.

Create HintDb names.
#[local] Hint Resolve names_quoted names_append_l names_append_r : names.

Lemma msg_no_parent_names parentSelector from :
  names (msg_no_parent parentSelector from) parentSelector /\
  names (msg_no_parent parentSelector from) from.
Proof. unfold msg_no_parent. split; auto 6 with names. Qed.

(** ** The calls of [closest], on any page *)

Lemma closest_loop_calls fuel :
  forall parent selector env s,
    Forall (fun ev => is_parent_walk ev = true)
           (trace (closest_loop fuel parent selector env s)) /\
    (forall e, result (closest_loop fuel parent selector env s) = Err e -> e = Diverged).
Proof.
  induction fuel as [|fuel IH]; intros [p|] selector env s; cbn [closest_loop];
    try (split; [constructor|cbn; intros e [=]; congruence]).
  erewrite bind_ok by apply getTagName_run.
  destruct (String.eqb (page_tag (timeline env (clock s)) p) "html").
  { cbn [ret result final trace app]. split; [repeat constructor|intros e [=]]. }
  erewrite bind_ok by apply getAttribute_run.
  destruct (class_matches _ selector).
  { cbn [ret result final trace app]. split; [repeat constructor|intros e [=]]. }
  erewrite bind_ok by apply find_run.
  cbn [result final trace app].
  destruct (IH (head (page_query (timeline env (clock (tick (tick s)))) (Some p) ".."))
               selector env (tick (tick (tick s)))) as [Hcalls Herr].
  split; [|exact Herr].
  repeat (constructor; [reflexivity|]). exact Hcalls.
Qed.

Lemma closest_calls fuel element selector env s :
  Forall (fun ev => is_parent_walk ev = true)
         (trace (closest fuel element selector env s)) /\
  (forall e, result (closest fuel element selector env s) = Err e ->
     e = Diverged \/ exists msg, e = TypeError msg).
Proof.
  unfold closest. destruct element as [e0|]; cbn [method_on].
  - erewrite bind_ok by reflexivity.
    erewrite bind_ok by apply find_run.
    cbn [result final trace app].
    destruct (closest_loop_calls fuel
                (head (page_query (timeline env (clock s)) (Some e0) ".."))
                selector env (tick s)) as [Hcalls Herr].
    split; [constructor; [reflexivity|exact Hcalls]|].
    intros e He. left. auto.
  - erewrite bind_err by reflexivity. cbn [result trace].
    split; [constructor|]. intros e [= <-]. right. eauto.
Qed.

(** The calls of ancestor resolution: the starting lookup in the whole
    document, then nothing but the wait for the child and the walk. *)
Lemma resolve_from_target_calls fuel selector parentSelector env s :
  exists start rest,
    trace (resolve_from_target fuel selector parentSelector env s)
      = EFind None selector start :: rest /\
    Forall (fun ev => is_resolution_call ev = true) rest.
Proof.
  unfold resolve_from_target.
  erewrite bind_ok by apply find_run. cbn [trace app].
  eexists _, _. split; [reflexivity|].
  eapply Forall_impl; [apply closest_calls|].
  intros ev Hev. destruct ev; try discriminate Hev; exact Hev || reflexivity.
Qed.

Lemma resolve_from_child_calls fuel childSelector parentSelector env s :
  exists start rest,
    trace (resolve_from_child fuel childSelector parentSelector env s)
      = EFind None childSelector start :: rest /\
    Forall (fun ev => is_resolution_call ev = true) rest.
Proof.
  unfold resolve_from_child.
  erewrite bind_ok by apply find_run.
  destruct (head (page_query (timeline env (clock s)) None childSelector)) as [c|].
  - erewrite bind_ok by reflexivity.
    destruct (waitForDisplayed_run c 10000 env (tick s)) as (k & ok & Hrun & _).
    destruct ok.
    + erewrite bind_ok by exact Hrun. cbn [trace app].
      eexists _, _. split; [reflexivity|].
      constructor; [reflexivity|].
      eapply Forall_impl; [apply closest_calls|].
      intros ev Hev. destruct ev; try discriminate Hev; exact Hev || reflexivity.
    + erewrite bind_err by exact Hrun. cbn [trace app].
      eexists _, _. split; [reflexivity|].
      constructor; [reflexivity|constructor].
  - erewrite bind_err by reflexivity. cbn [trace app].
    eexists _, _. split; [reflexivity|constructor].
Qed.

(** When the resolution from the target answers [null], the step stops
    there with the assertion's error. *)
Ltac stops_at_closest Hres :=
  let r1 := fresh "r" in
  let s1 := fresh "s" in
  let t1 := fresh "t" in
  let Hc := fresh "Hclosest" in
  match type of Hres with
  | context [closest ?fuel ?b ?p ?env ?s] =>
      destruct (closest fuel b p env s) as [r1 s1 t1] eqn:Hc
  end;
  cbn [result final trace] in Hres;
  injection Hres as -> -> <-;
  erewrite bind_ok by exact Hc;
  erewrite bind_err by reflexivity;
  cbn [result final trace]; rewrite !app_nil_r; reflexivity.

Ltac stops_from_target Hres :=
  unfold resolve_from_target in Hres;
  erewrite bind_ok in Hres by apply find_run;
  erewrite bind_ok by apply find_run;
  stops_at_closest Hres.

Ltac stops_from_child Hres :=
  let c0 := fresh "c" in
  let k0 := fresh "k" in
  let ok0 := fresh "ok" in
  let Hwait := fresh "Hwait" in
  unfold resolve_from_child in Hres;
  erewrite bind_ok in Hres by apply find_run;
  erewrite bind_ok by apply find_run;
  match goal with
  | |- context [method_on ?v _] => destruct v as [c0|]
  end;
  [ erewrite bind_ok in Hres by reflexivity;
    erewrite bind_ok by reflexivity;
    match goal with
    | |- context [bind (Driver.waitForDisplayed ?c ?t) _ ?env ?s] =>
        destruct (waitForDisplayed_run c t env s) as (k0 & ok0 & Hwait & _)
    end;
    destruct ok0;
    [ erewrite bind_ok in Hres by exact Hwait;
      erewrite bind_ok by exact Hwait;
      stops_at_closest Hres
    | erewrite bind_err in Hres by exact Hwait;
      cbn [result final trace] in Hres; discriminate Hres ]
  | erewrite bind_err in Hres by reflexivity;
    cbn [result final trace] in Hres; discriminate Hres ].

(** C6: for every step with [in closest parent], when the ancestor
    resolution answers [null] the step fails there and then with the
    assertion's error, whose message names the parent selector and the
    selector the walk started from; the state and the calls made are those
    of the resolution, which after the starting lookup are only the wait for
    the child and the walk upwards: no locator is run and the document is
    not searched again. *)
Theorem scoped_step_stops_without_ancestor
    fuel step resolve parentSelector from env s s' t :
  ancestor_resolution fuel step = Some (resolve, parentSelector, from) ->
  resolve env s = {| result := Ok None; final := s'; trace := t |} ->
  handler fuel step env s =
    {| result := Err (AssertionError (msg_no_parent parentSelector from));
       final := s';
       trace := t |} /\
  names (msg_no_parent parentSelector from) parentSelector /\
  names (msg_no_parent parentSelector from) from /\
  exists start rest,
    t = EFind None from start :: rest /\
    Forall (fun ev => is_resolution_call ev = true) rest.
Proof.
  intros Hscope Hres.
  split; [|split; [apply msg_no_parent_names|split; [apply msg_no_parent_names|]]].
  - destruct step; cbn [ancestor_resolution] in Hscope; try discriminate Hscope;
      injection Hscope as <- <- <-; cbn [handler].
    + unfold click_element_in_parent. stops_from_target Hres.
    + unfold click_element_in_parent_with_child. stops_from_child Hres.
    + unfold clear_element_in_parent. stops_from_target Hres.
    + unfold clear_element_in_parent_with_child. stops_from_child Hres.
    + unfold enter_into_element_in_parent. stops_from_target Hres.
    + unfold enter_into_element_in_parent_with_child. stops_from_child Hres.
    + unfold should_see_in_element_in_parent. stops_from_target Hres.
    + unfold should_see_in_element_in_parent_with_child. stops_from_child Hres.
  - destruct step; cbn [ancestor_resolution] in Hscope; try discriminate Hscope;
      injection Hscope as <- <- <-.
    all: match type of Hres with
         | resolve_from_target ?f ?a ?b _ _ = _ =>
             destruct (resolve_from_target_calls f a b env s)
               as (start & rest & Htrace & Hrest)
         | resolve_from_child ?f ?a ?b _ _ = _ =>
             destruct (resolve_from_child_calls f a b env s)
               as (start & rest & Htrace & Hrest)
         end;
         rewrite Hres in Htrace; cbn [trace] in Htrace; eauto.
Qed.

(** No ancestor of the sample [span] has the class [missing]. *)
Lemma scoped_step_stops_without_ancestor_witness :
  result (handler 4 (ClickElementInParent "#x" ".missing") Sample.env Sample.start)
    = Err (AssertionError (msg_no_parent ".missing" "#x")).
Proof.
  assert (Hres : resolve_from_target 4 "#x" ".missing" Sample.env Sample.start =
            {| result := Ok None;
               final := final (resolve_from_target 4 "#x" ".missing" Sample.env Sample.start);
               trace := trace (resolve_from_target 4 "#x" ".missing" Sample.env Sample.start) |})
    by (vm_compute; reflexivity).
  destruct (scoped_step_stops_without_ancestor
              4 (ClickElementInParent "#x" ".missing")
              (resolve_from_target 4 "#x" ".missing") ".missing" "#x"
              Sample.env Sample.start _ _ eq_refl Hres) as [Hrun _].
  rewrite Hrun. reflexivity.
Defined.

(** When the ancestor is there, the locator does run below it. *)
Example click_in_card :
  trace (handler 4 (ClickElementInParent "#x" ".card") Sample.env Sample.start) =
    [ EFind None "#x" (Some 4);
      EFind (Some 4) ".." (Some 3);
      EGetTagName 3 "div"; EGetAttribute 3 "class" (Some "row");
      EFind (Some 3) ".." (Some 2);
      EGetTagName 2 "div"; EGetAttribute 2 "class" (Some "card big");
      EFind (Some 2) "#x" (Some 4);
      EWaitForDisplayed 4 5000 true;
      EWaitForClickable 4 5000 true;
      EClick 4 ].
Proof. vm_compute. reflexivity. Qed.

(** * The action steps *)

Lemma click_run h env s :
  Driver.click h env s = {| result := Ok tt; final := tick s; trace := [EClick h] |}.
Proof. reflexivity. Qed.

Lemma keys_run k env s :
  Driver.keys k env s = {| result := Ok tt; final := tick s; trace := [EKeys k] |}.
Proof. reflexivity. Qed.

Lemma setValue_run h text env s :
  Driver.setValue h text env s =
    {| result := Ok tt; final := tick s; trace := [ESetValue h text] |}.
Proof. reflexivity. Qed.

(** [find] answers the first of the matches below the element. *)
Lemma find_first_run element selector env s :
  find element selector env s =
    {| result := Ok (head (page_query (timeline env (clock s)) (Some element) selector));
       final := tick s;
       trace := [EFindAll (Some element) selector
                   (page_query (timeline env (clock s)) (Some element) selector)] |}.
Proof.
  unfold find. erewrite bind_ok by apply findAll_run.
  destruct (page_query (timeline env (clock s)) (Some element) selector); reflexivity.
Qed.

Lemma among_here h l : among h (h :: l) = true.
Proof. unfold among. cbn [existsb]. rewrite Nat.eqb_refl. reflexivity. Qed.

Lemma among_In h l : among h l = true <-> In h l.
Proof.
  unfold among. rewrite existsb_exists. split.
  - intros (x & Hx & Heq). apply Nat.eqb_eq in Heq. subst. exact Hx.
  - intros H. exists h. split; [exact H|apply Nat.eqb_refl].
Qed.

(** The walk upwards neither waits nor acts. *)
Lemma waited_first_walk c shown clickable t1 t2 :
  Forall (fun ev => is_parent_walk ev = true) t1 ->
  waited_first c shown clickable (t1 ++ t2) = waited_first c shown clickable t2.
Proof.
  induction 1 as [|ev t1 Hev _ IH]; [reflexivity|].
  cbn [app waited_first].
  destruct ev; try discriminate Hev; exact IH.
Qed.

Lemma waited_first_walk_only c shown clickable t :
  Forall (fun ev => is_parent_walk ev = true) t ->
  waited_first c shown clickable t = true.
Proof.
  intros H. rewrite <- (app_nil_r t). rewrite waited_first_walk by exact H. reflexivity.
Qed.

(** What the check means: before each call that acts on an element there
    is a wait that reported it displayed (among the calls of the trace or
    before it), and before each click, when asked for, one that reported it
    clickable. *)
Lemma waited_first_sound c t :
  forall shown clickable,
    waited_first c shown clickable t = true ->
    forall t1 ev t2 h,
      t = t1 ++ ev :: t2 ->
      acts_on ev = Some h ->
      (In h shown \/ exists timeout, In (EWaitForDisplayed h timeout true) t1) /\
      (c = true -> ev = EClick h ->
       In h clickable \/ exists timeout, In (EWaitForClickable h timeout true) t1).
Proof.
  induction t as [|e0 t IH]; intros shown clickable Hok t1 ev t2 h Hsplit Hact.
  - destruct t1; discriminate Hsplit.
  - destruct t1 as [|e1 t1]; cbn [app] in Hsplit; injection Hsplit as -> Hrest.
    + destruct ev; try discriminate Hact; cbn [acts_on] in Hact;
        injection Hact as ->; cbn [waited_first] in Hok.
      * apply andb_true_iff in Hok as [Hok _].
        apply andb_true_iff in Hok as [Hshown Hclick].
        split; [left; apply among_In; exact Hshown|].
        intros -> _. cbn [negb orb] in Hclick. left. apply among_In. exact Hclick.
      * apply andb_true_iff in Hok as [Hshown _].
        split; [left; apply among_In; exact Hshown|]. intros _ [=].
    + assert (Hstep : exists shown' clickable',
                waited_first c shown' clickable' t = true /\
                (forall x, In x shown' ->
                   In x shown \/ exists timeout, e1 = EWaitForDisplayed x timeout true) /\
                (forall x, In x clickable' ->
                   In x clickable \/ exists timeout, e1 = EWaitForClickable x timeout true)).
      { destruct e1; cbn [waited_first] in Hok;
          try (exists shown, clickable; split; [exact Hok|split; auto]).
        - destruct reply.
          + exists (h0 :: shown), clickable. split; [exact Hok|]. split; [|auto].
            intros x [<-|Hx]; [right; eauto|left; exact Hx].
          + exists shown, clickable. split; [exact Hok|split; auto].
        - destruct reply.
          + exists shown, (h0 :: clickable). split; [exact Hok|]. split; [auto|].
            intros x [<-|Hx]; [right; eauto|left; exact Hx].
          + exists shown, clickable. split; [exact Hok|split; auto].
        - apply andb_true_iff in Hok as [_ Hok].
          exists shown, clickable. split; [exact Hok|split; auto].
        - apply andb_true_iff in Hok as [_ Hok].
          exists shown, clickable. split; [exact Hok|split; auto]. }
      destruct Hstep as (shown' & clickable' & Hok' & Hshown' & Hclick').
      destruct (IH shown' clickable' Hok' t1 ev t2 h Hrest Hact) as [Hd Hc].
      split.
      * destruct Hd as [Hin|[timeout Hin]].
        -- destruct (Hshown' h Hin) as [Hold|[timeout ->]]; [left; exact Hold|].
           right. exists timeout. left. reflexivity.
        -- right. exists timeout. right. exact Hin.
      * intros Hc1 Hev. destruct (Hc Hc1 Hev) as [Hin|[timeout Hin]].
        -- destruct (Hclick' h Hin) as [Hold|[timeout ->]]; [left; exact Hold|].
           right. exists timeout. left. reflexivity.
        -- right. exists timeout. right. exact Hin.
Qed.

(** One step of a handler's run: the next call is resolved by its
    equation, by cases on what the driver answers. *)
Ltac run_next :=
  match goal with
  | |- context [bind (Driver.find ?r ?sel) _ ?env ?s] =>
      erewrite (bind_ok (Driver.find r sel)) by apply find_run
  | |- context [bind (find ?r ?sel) _ ?env ?s] =>
      erewrite (bind_ok (find r sel)) by apply find_first_run
  | |- context [bind (method_on (Some ?h) ?m) _ ?env ?s] =>
      erewrite (bind_ok (method_on (Some h) m)) by reflexivity
  | |- context [bind (method_on None ?m) _ ?env ?s] =>
      erewrite (bind_err (method_on None m)) by reflexivity
  | |- context [bind (method_on ?v ?m) _ ?env ?s] =>
      destruct v
  | |- context [bind (assert_ok_handle (Some ?h) ?m) _ ?env ?s] =>
      erewrite (bind_ok (assert_ok_handle (Some h) m)) by reflexivity
  | |- context [bind (assert_ok_handle None ?m) _ ?env ?s] =>
      erewrite (bind_err (assert_ok_handle None m)) by reflexivity
  | |- context [bind (assert_ok_handle ?v ?m) _ ?env ?s] =>
      destruct v
  | |- context [bind (ret ?a) _ ?env ?s] =>
      erewrite (bind_ok (ret a)) by reflexivity
  | |- context [bind (Driver.waitForDisplayed ?h ?t) _ ?env ?s] =>
      let k := fresh "k" in
      let ok := fresh "ok" in
      let Hwait := fresh "Hwait" in
      destruct (waitForDisplayed_run h t env s) as (k & ok & Hwait & _);
      destruct ok;
      [ erewrite (bind_ok (Driver.waitForDisplayed h t)) by exact Hwait
      | erewrite (bind_err (Driver.waitForDisplayed h t)) by exact Hwait ]
  | |- context [bind (Driver.waitForClickable ?h ?t) _ ?env ?s] =>
      let k := fresh "k" in
      let ok := fresh "ok" in
      let Hwait := fresh "Hwait" in
      destruct (waitForClickable_run h t env s) as (k & ok & Hwait & _);
      destruct ok;
      [ erewrite (bind_ok (Driver.waitForClickable h t)) by exact Hwait
      | erewrite (bind_err (Driver.waitForClickable h t)) by exact Hwait ]
  | |- context [bind (closest ?fuel ?e ?sel) _ ?env ?s] =>
      let Hwalk := fresh "Hwalk" in
      let Herr := fresh "Herr" in
      let r := fresh "r" in
      let s1 := fresh "s" in
      let t1 := fresh "walk" in
      let Hc := fresh "Hclosest" in
      destruct (closest_calls fuel e sel env s) as [Hwalk Herr];
      destruct (closest fuel e sel env s) as [[[r|]|r] s1 t1] eqn:Hc;
      cbn [result trace] in Hwalk, Herr;
      [ erewrite (bind_ok (closest fuel e sel)) by exact Hc
      | erewrite (bind_ok (closest fuel e sel)) by exact Hc
      | erewrite (bind_err (closest fuel e sel)) by exact Hc ]
  | |- context [bind (Driver.click ?h) _ ?env ?s] =>
      erewrite (bind_ok (Driver.click h)) by apply click_run
  | |- context [bind (Driver.keys ?k) _ ?env ?s] =>
      erewrite (bind_ok (Driver.keys k)) by apply keys_run
  end;
  cbn [result final trace].

Ltac run_handler := repeat run_next.

(** Past the walk, the check goes on. *)
Ltac check_trace :=
  rewrite ?click_run, ?keys_run, ?setValue_run;
  cbn [trace app];
  repeat first
    [ rewrite among_here
    | rewrite waited_first_walk by assumption
    | rewrite waited_first_walk_only by assumption
    | progress cbn [waited_first app andb orb negb] ];
  try reflexivity.

(** Every action step but one waits before it acts. *)
Lemma action_steps_wait_first fuel step env s :
  is_action_step step = true ->
  (forall t c p b, step <> EnterIntoElementInParentWithChild t c p b) ->
  waited_first (is_click_step step) [] [] (trace (handler fuel step env s)) = true.
Proof.
  intros Haction Hother.
  destruct step; try discriminate Haction; cbn [handler is_click_step].
  - unfold click_element. run_handler; check_trace.
  - unfold click_element_in_parent. run_handler; check_trace.
  - unfold click_element_in_parent_with_child. run_handler; check_trace.
  - unfold clear_element. run_handler; check_trace.
  - unfold clear_element_in_parent. run_handler; check_trace.
  - unfold clear_element_in_parent_with_child. run_handler; check_trace.
  - unfold enter_into_element. run_handler; check_trace.
  - unfold enter_into_element_in_parent. run_handler; check_trace.
  - exfalso. eapply Hother. reflexivity.
Qed.

(** X8: in the trace of every action step other than [I enter ... in
    closest parent ... with child ...], whatever the page does, a call that
    acts on an element comes after a wait that reported that element
    displayed, and the click of a click step also after one that reported
    it clickable. *)
Lemma action_steps_act_on_shown fuel step env s t1 ev t2 h :
  is_action_step step = true ->
  (forall t c p b, step <> EnterIntoElementInParentWithChild t c p b) ->
  trace (handler fuel step env s) = t1 ++ ev :: t2 ->
  acts_on ev = Some h ->
  (exists timeout, In (EWaitForDisplayed h timeout true) t1) /\
  (is_click_step step = true -> ev = EClick h ->
   exists timeout, In (EWaitForClickable h timeout true) t1).
Proof.
  intros Haction Hother Hsplit Hact.
  pose proof (action_steps_wait_first fuel step env s Haction Hother) as Hok.
  destruct (waited_first_sound _ _ [] [] Hok t1 ev t2 h Hsplit Hact) as [Hd Hc].
  split.
  - destruct Hd as [[]|Hd]. exact Hd.
  - intros Hclick Hev. destruct (Hc Hclick Hev) as [[]|Hc']. exact Hc'.
Qed.

(** C2 (failing input): [I enter "Ann" into element "#name" in closest
    parent ".card" with child "#x"], where the input [#name] is never
    displayed.  The step waits for the child [#x], finds the card and the
    input in it, and sets the input's value: no wait for the input comes
    before. *)
Theorem enter_with_child_acts_unseen :
  (forall t, page_displayed (timeline Sample.env t) 5 = false) /\
  handler 4 (EnterIntoElementInParentWithChild "Ann" "#name" ".card" "#x")
          Sample.env Sample.start =
    {| result := Ok tt;
       final := ticks 10 Sample.start;
       trace :=
         [ EFind None "#x" (Some 4);
           EWaitForDisplayed 4 10000 true;
           EFind (Some 4) ".." (Some 3);
           EGetTagName 3 "div"; EGetAttribute 3 "class" (Some "row");
           EFind (Some 3) ".." (Some 2);
           EGetTagName 2 "div"; EGetAttribute 2 "class" (Some "card big");
           EFindAll (Some 2) "#name" [5];
           ESetValue 5 "Ann" ] |} /\
  waited_first false [] []
    (trace (handler 4 (EnterIntoElementInParentWithChild "Ann" "#name" ".card" "#x")
                    Sample.env Sample.start)) = false.
Proof.
  split; [intros t; reflexivity|].
  split; vm_compute; reflexivity.
Qed.

(** * Timeouts of the verification steps *)

(** A condition that throws ends the poll with its error. *)
Lemma waitUntil_cond_fails cond timeout msg env s e s1 t1 :
  cond env s = {| result := Err e; final := s1; trace := t1 |} ->
  Driver.waitUntil cond timeout msg env s =
    {| result := Err e; final := s1; trace := t1 |}.
Proof.
  intros Hcond. rewrite waitUntil_eq.
  destruct (polls env timeout); cbn [Driver.waitUntil_loop];
    erewrite bind_err by exact Hcond; reflexivity.
Qed.

Lemma expect_text_null expectedText elementSelector env s :
  result (expect_text None expectedText elementSelector env s)
    = Err (TypeError "Cannot read properties of null (reading 'getText')").
Proof.
  unfold expect_text.
  erewrite bind_err; [reflexivity|].
  apply waitUntil_cond_fails. reflexivity.
Qed.

(** The only timeout of the text steps' last lines carries their message. *)
Lemma expect_text_timeout_msg target expectedText elementSelector env s msg :
  result (expect_text target expectedText elementSelector env s)
    = Err (WaitUntilTimeout msg) ->
  msg = msg_text_timeout expectedText elementSelector.
Proof.
  destruct target as [h|].
  - destruct (expect_text_run h expectedText elementSelector env s)
      as [(k & _ & _ & _ & Hrun)|[_ Hrun]]; rewrite Hrun; cbn [result].
    + destruct (Js.includes _ expectedText); discriminate.
    + intros [= <-]. reflexivity.
  - rewrite expect_text_null. discriminate.
Qed.

Lemma should_see_in_attribute_timeout_msg expectedValue attributeName selector env s msg :
  result (should_see_in_attribute expectedValue attributeName selector env s)
    = Err (WaitUntilTimeout msg) ->
  msg = msg_attr_timeout expectedValue attributeName selector.
Proof.
  destruct (head (page_query (timeline env (clock s)) None selector)) as [h|] eqn:Hfound.
  - destruct (should_see_in_attribute_run expectedValue attributeName selector h env s Hfound)
      as [(k & _ & _ & _ & Hrun)|[_ Hrun]]; rewrite Hrun; cbn [result].
    + destruct (page_attr _ h attributeName) as [a|]; cbn [attribute_verdict];
        [destruct (Js.includes a expectedValue)|]; discriminate.
    + intros [= <-]. reflexivity.
  - unfold should_see_in_attribute.
    erewrite bind_ok by apply find_run. rewrite Hfound.
    erewrite bind_err by (apply waitUntil_cond_fails; reflexivity).
    cbn [result]. discriminate.
Qed.

Lemma should_be_on_page_timeout_msg expectedUrl env s msg :
  result (should_be_on_page expectedUrl env s) = Err (WaitUntilTimeout msg) ->
  msg = msg_url_timeout expectedUrl.
Proof.
  destruct (should_be_on_page_run expectedUrl env s)
    as [(k & _ & _ & _ & Hrun)|[_ Hrun]]; rewrite Hrun; cbn [result].
  - destruct (String.eqb _ expectedUrl); discriminate.
  - intros [= <-]. reflexivity.
Qed.

(** Whatever else happens in a step, a [waitUntil] timeout carries the
    message of the step. *)
Ltac not_a_timeout :=
  let msg := fresh "msg" in
  let H := fresh "H" in
  intros msg H;
  first
    [ discriminate H
    | apply expect_text_timeout_msg in H; exact H
    | injection H as ->;
      match goal with
      | Herr : forall e, Err _ = Err e -> _ |- _ =>
          destruct (Herr _ eq_refl) as [?|[? ?]]; discriminate
      end ].

Lemma timeout_carries_message fuel step expected target env s msg :
  polling_target step = Some (expected, target) ->
  result (handler fuel step env s) = Err (WaitUntilTimeout msg) ->
  msg = timeout_message step.
Proof.
  intros Htarget. revert msg.
  destruct step; try discriminate Htarget; cbn [handler timeout_message]; intros msg.
  - apply should_be_on_page_timeout_msg.
  - rewrite should_see_in_element_tail. revert msg.
    run_handler; not_a_timeout.
  - rewrite should_see_in_element_in_parent_tail. revert msg.
    run_handler; not_a_timeout.
  - rewrite should_see_in_element_in_parent_with_child_tail. revert msg.
    run_handler; not_a_timeout.
  - apply should_see_in_attribute_timeout_msg.
Qed.

Lemma timeout_message_names step expected target :
  polling_target step = Some (expected, target) ->
  names (timeout_message step) expected /\ names (timeout_message step) target.
Proof.
  destruct step; intros [= <- <-]; cbn [timeout_message];
    unfold msg_url_timeout, msg_text_timeout, msg_attr_timeout;
    split; auto 8 with names.
Qed.

Lemma msg_url_timeout_duration expectedUrl :
  names (msg_url_timeout expectedUrl) "10 segundos".
Proof.
  unfold msg_url_timeout. apply names_append_r, names_append_r.
  unfold names. vm_compute. reflexivity.
Qed.




(** * More on [closest] *)

(** No piece of a split contains the separator. *)
Lemma split_pieces_no_sep sep s :
  forall w, w ∈ Js.split sep s -> contains_char sep w = false.
Proof.
  induction s as [|c r IH]; intros w Hw; cbn [Js.split] in Hw.
  - apply list_elem_of_singleton in Hw. subst. reflexivity.
  - destruct (Ascii.eqb c sep) eqn:Hc.
    + apply elem_of_cons in Hw as [->|Hw]; [reflexivity|auto].
    + pose proof (split_not_nil sep r) as Hne.
      destruct (Js.split sep r) as [|w0 ws]; [contradiction|].
      apply elem_of_cons in Hw as [->|Hw].
      * cbn [contains_char]. rewrite Hc. apply IH. constructor.
      * apply IH. constructor. exact Hw.
Qed.

(** A string without the separator is its own single piece. *)
Lemma split_no_sep sep s :
  contains_char sep s = false -> Js.split sep s = [s].
Proof.
  induction s as [|c r IH]; cbn [contains_char Js.split]; [reflexivity|].
  intros H. apply orb_false_iff in H as [Hc Hr].
  rewrite Hc, (IH Hr). reflexivity.
Qed.

(** X1: a parent selector whose class name contains a space (a compound
    or descendant selector such as [.card .big]) matches no ancestor,
    whatever its class attribute: the tokens of [classAttr.split(' ')]
    never contain a space. *)
Theorem class_name_with_space_never_matches classAttr selector :
  contains_char " " (class_name selector) = true ->
  class_matches classAttr selector = false.
Proof.
  intros Hspace. destruct classAttr as [c|]; [|reflexivity].
  unfold class_matches, Js.array_includes.
  destruct (Js.truthy c); [|reflexivity]. cbn [andb].
  apply bool_decide_eq_false_2. intros Hin.
  apply split_pieces_no_sep in Hin. congruence.
Qed.

Lemma class_name_with_space_never_matches_witness :
  class_matches (Some "card .big") ".card .big" = false.
Proof.
  apply (class_name_with_space_never_matches (Some "card .big") ".card .big").
  reflexivity.
Defined.

(** X2: tokens are cut at the space character only: a class attribute
    without a space matches exactly when it is non-empty and equal, as a
    whole, to the class name.  There is no prefix or substring matching,
    and a tab or a line break separates nothing. *)
Theorem class_without_space_matches_whole c selector :
  contains_char " " c = false ->
  class_matches (Some c) selector = Js.truthy c && String.eqb (class_name selector) c.
Proof.
  intros Hc. unfold class_matches, Js.array_includes.
  rewrite (split_no_sep " " c Hc). f_equal.
  destruct (String.eqb_spec (class_name selector) c) as [Heq|Hne].
  - apply bool_decide_eq_true_2. rewrite Heq. constructor.
  - apply bool_decide_eq_false_2. intros Hin.
    apply list_elem_of_singleton in Hin. contradiction.
Qed.

Lemma class_without_space_matches_whole_witness :
  class_matches (Some "card-big") ".card" = false.
Proof.
  rewrite (class_without_space_matches_whole "card-big" ".card"); reflexivity.
Defined.

(** ** On a page that may change *)

Lemma closest_loop_clock fuel :
  forall parent selector env s,
    clock (final (closest_loop fuel parent selector env s))
      = length (trace (closest_loop fuel parent selector env s)) + clock s /\
    dirs (final (closest_loop fuel parent selector env s)) = dirs s.
Proof.
  induction fuel as [|fuel IH]; intros [p|] selector env s; cbn [closest_loop];
    try (split; reflexivity).
  erewrite bind_ok by apply getTagName_run.
  destruct (String.eqb (page_tag (timeline env (clock s)) p) "html");
    [split; reflexivity|].
  erewrite bind_ok by apply getAttribute_run.
  destruct (class_matches _ selector); [split; reflexivity|].
  erewrite bind_ok by apply find_run.
  cbn [result final trace app length].
  destruct (IH (head (page_query (timeline env (clock (tick (tick s)))) (Some p) ".."))
               selector env (tick (tick (tick s)))) as [Hclock Hdirs].
  rewrite Hclock, Hdirs. cbn [tick clock dirs]. split; [lia|reflexivity].
Qed.

(** X3: whatever the page does meanwhile, [closest] only reads: each of
    its calls is a tag name, a [class] attribute or a parent lookup (no
    click, no keys, no value set, no wait, no search of the document), and
    each takes one tick. *)
Theorem closest_only_reads fuel element selector env s :
  Forall (fun ev => is_parent_walk ev = true /\ is_action ev = false)
         (trace (closest fuel element selector env s)) /\
  clock (final (closest fuel element selector env s))
    = length (trace (closest fuel element selector env s)) + clock s /\
  dirs (final (closest fuel element selector env s)) = dirs s.
Proof.
  split.
  - eapply Forall_impl; [apply closest_calls|].
    intros ev Hev. split; [exact Hev|].
    destruct ev; try discriminate Hev; reflexivity.
  - unfold closest. destruct element as [e0|]; cbn [method_on].
    + erewrite bind_ok by reflexivity.
      erewrite bind_ok by apply find_run.
      cbn [result final trace app length].
      destruct (closest_loop_clock fuel
                  (head (page_query (timeline env (clock s)) (Some e0) ".."))
                  selector env (tick s)) as [Hclock Hdirs].
      rewrite Hclock, Hdirs. cbn [tick clock dirs]. split; [lia|reflexivity].
    + erewrite bind_err by reflexivity. split; reflexivity.
Qed.

Lemma closest_loop_observed fuel :
  forall parent selector env s n,
    result (closest_loop fuel parent selector env s) = Ok (Some n) ->
    exists pre tag classAttr,
      trace (closest_loop fuel parent selector env s)
        = pre ++ [EGetTagName n tag; EGetAttribute n "class" classAttr] /\
      String.eqb tag "html" = false /\
      class_matches classAttr selector = true /\
      ((parent = Some n /\ pre = [])
       \/ exists pre' m, pre = pre' ++ [EFind (Some m) ".." (Some n)]).
Proof.
  induction fuel as [|fuel IH]; intros [p|] selector env s n; cbn [closest_loop];
    try (cbn; discriminate).
  erewrite bind_ok by apply getTagName_run.
  destruct (String.eqb (page_tag (timeline env (clock s)) p) "html") eqn:Htag;
    [cbn; discriminate|].
  erewrite bind_ok by apply getAttribute_run.
  destruct (class_matches (page_attr (timeline env (clock (tick s))) p "class") selector)
    eqn:Hmatch.
  - cbn [ret result final trace app]. intros [= <-].
    exists [], (page_tag (timeline env (clock s)) p),
           (page_attr (timeline env (clock (tick s))) p "class").
    split; [reflexivity|]. split; [exact Htag|]. split; [exact Hmatch|].
    left. split; reflexivity.
  - erewrite bind_ok by apply find_run.
    cbn [result final trace app]. intros Hres.
    destruct (IH _ selector env _ n Hres)
      as (pre & tag & classAttr & Htrace & Hnot & Hhas & Hfrom).
    rewrite Htrace.
    exists (EGetTagName p (page_tag (timeline env (clock s)) p)
            :: EGetAttribute p "class" (page_attr (timeline env (clock (tick s))) p "class")
            :: EFind (Some p) ".."
                 (head (page_query (timeline env (clock (tick (tick s)))) (Some p) ".."))
            :: pre), tag, classAttr.
    split; [reflexivity|]. split; [exact Hnot|]. split; [exact Hhas|].
    right. destruct Hfrom as [[Hparent ->]|(pre' & m & ->)].
    + rewrite Hparent.
      exists [EGetTagName p (page_tag (timeline env (clock s)) p);
              EGetAttribute p "class" (page_attr (timeline env (clock (tick s))) p "class")],
             p.
      reflexivity.
    + eexists (_ :: _ :: _ :: pre'), m. reflexivity.
Qed.

(** X4: whatever the page does meanwhile, a node that [closest] returns
    is the last one it looked at: it was the answer of a parent lookup, its
    tag name was then read and was not [html], and its [class] attribute
    was then read and had the class. *)
Theorem closest_returns_observed_match fuel e selector env s n :
  result (closest fuel (Some e) selector env s) = Ok (Some n) ->
  exists pre m tag classAttr,
    trace (closest fuel (Some e) selector env s)
      = pre ++ [EFind (Some m) ".." (Some n);
                EGetTagName n tag;
                EGetAttribute n "class" classAttr] /\
    String.eqb tag "html" = false /\
    class_matches classAttr selector = true.
Proof.
  unfold closest. cbn [method_on].
  erewrite bind_ok by reflexivity.
  erewrite bind_ok by apply find_run.
  cbn [result final trace app]. intros Hres.
  destruct (closest_loop_observed fuel _ selector env _ n Hres)
    as (pre & tag & classAttr & Htrace & Hnot & Hhas & Hfrom).
  rewrite Htrace.
  destruct Hfrom as [[Hparent ->]|(pre' & m & ->)].
  - rewrite Hparent. exists [], e, tag, classAttr. auto.
  - exists (EFind (Some e) ".."
              (head (page_query (timeline env (clock s)) (Some e) "..")) :: pre'),
           m, tag, classAttr.
    rewrite <- app_assoc. auto.
Qed.

Lemma closest_returns_observed_match_witness :
  exists pre m tag classAttr,
    trace (closest 4 (Some 4) ".card" Sample.env Sample.start)
      = pre ++ [EFind (Some m) ".." (Some 2);
                EGetTagName 2 tag;
                EGetAttribute 2 "class" classAttr] /\
    String.eqb tag "html" = false /\
    class_matches classAttr ".card" = true.
Proof.
  apply (closest_returns_observed_match 4 4 ".card" Sample.env Sample.start 2).
  vm_compute. reflexivity.
Defined.

Lemma loop_calls_length p selector chain :
  length (loop_calls p selector chain) <= 3 * length (below_root p chain) + 1.
Proof.
  induction chain as [|a l IH]; cbn [loop_calls below_root]; [cbn; lia|].
  destruct (is_root p a); [cbn; lia|].
  destruct (has_class p selector a); cbn [length] in *; lia.
Qed.

Lemma below_root_length p chain :
  length (below_root p chain) <= length chain.
Proof.
  induction chain as [|a l IH]; cbn [below_root]; [lia|].
  destruct (is_root p a); cbn [length]; lia.
Qed.

(** X5: on a page that does not change, walking a finite chain costs at
    most three driver calls for each ancestor below the root, and two
    more: the first parent lookup and the tag name of the node where the
    walk stops. *)
Theorem closest_call_bound env p selector e chain fuel s :
  static env p ->
  ancestors p e chain ->
  length chain <= fuel ->
  length (trace (closest fuel (Some e) selector env s))
    <= 3 * length (below_root p chain) + 2 /\
  length (trace (closest fuel (Some e) selector env s)) <= 3 * length chain + 2.
Proof.
  intros Hst Hanc Hfuel.
  rewrite (closest_static env p selector e chain fuel s Hst Hanc Hfuel).
  cbn [trace length].
  pose proof (loop_calls_length p selector chain).
  pose proof (below_root_length p chain). lia.
Qed.

Lemma closest_call_bound_witness :
  length (trace (closest 4 (Some 4) ".dark" Sample.env Sample.start)) <= 3 * 3 + 2.
Proof.
  assert (Hst : static Sample.env Sample.page) by (intros t; reflexivity).
  assert (Hanc : ancestors Sample.page 4 [3; 2; 1; 0]) by (repeat constructor).
  assert (Hfuel : length [3; 2; 1; 0] <= 4) by (simpl; lia).
  destruct (closest_call_bound Sample.env Sample.page ".dark" 4 [3; 2; 1; 0] 4
              Sample.start Hst Hanc Hfuel) as [Hbound _].
  exact Hbound.
Defined.

(** * More on the action steps *)

Lemma action_steps_act_on_shown_witness :
  (exists timeout,
     In (EWaitForDisplayed 4 timeout true)
        [ EFind None "#x" (Some 4);
          EFind (Some 4) ".." (Some 3);
          EGetTagName 3 "div"; EGetAttribute 3 "class" (Some "row");
          EFind (Some 3) ".." (Some 2);
          EGetTagName 2 "div"; EGetAttribute 2 "class" (Some "card big");
          EFind (Some 2) "#x" (Some 4);
          EWaitForDisplayed 4 5000 true;
          EWaitForClickable 4 5000 true ]) /\
  (is_click_step (ClickElementInParent "#x" ".card") = true ->
   EClick 4 = EClick 4 ->
   exists timeout,
     In (EWaitForClickable 4 timeout true)
        [ EFind None "#x" (Some 4);
          EFind (Some 4) ".." (Some 3);
          EGetTagName 3 "div"; EGetAttribute 3 "class" (Some "row");
          EFind (Some 3) ".." (Some 2);
          EGetTagName 2 "div"; EGetAttribute 2 "class" (Some "card big");
          EFind (Some 2) "#x" (Some 4);
          EWaitForDisplayed 4 5000 true;
          EWaitForClickable 4 5000 true ]).
Proof.
  apply (action_steps_act_on_shown 4 (ClickElementInParent "#x" ".card")
           Sample.env Sample.start _ (EClick 4) [] 4).
  - reflexivity.
  - intros t c p b. discriminate.
  - vm_compute. reflexivity.
  - reflexivity.
Defined.

Lemma from_first_action_walk walk t :
  Forall (fun ev => is_parent_walk ev = true) walk ->
  from_first_action (walk ++ t) = from_first_action t.
Proof.
  induction 1 as [|ev walk Hev _ IH]; [reflexivity|].
  cbn [app from_first_action].
  destruct ev; try discriminate Hev; exact IH.
Qed.

Lemma from_first_action_walk_only walk :
  Forall (fun ev => is_parent_walk ev = true) walk ->
  from_first_action walk = [].
Proof.
  intros H. rewrite <- (app_nil_r walk).
  rewrite from_first_action_walk by exact H. reflexivity.
Qed.

Ltac actions_done :=
  rewrite ?click_run, ?keys_run, ?setValue_run;
  cbn [result final trace app];
  repeat first
    [ rewrite from_first_action_walk by assumption
    | rewrite from_first_action_walk_only by assumption
    | progress cbn [from_first_action is_action app] ];
  try reflexivity;
  try (eexists; reflexivity).

(** X9: what an action step does to the page, whatever the page does:
    every lookup, wait and assertion of the step comes before its first
    action, and from that action on the calls are the first of those of
    [performs] on one element (one click; a click, select-all and
    Backspace; those and the text; or one value set), in that order and
    with nothing in between; in a step that succeeds they are all of
    them, and nothing follows. *)
Theorem action_step_performs fuel step env s :
  is_action_step step = true ->
  exists h rest,
    performs step h = from_first_action (trace (handler fuel step env s)) ++ rest /\
    (result (handler fuel step env s) = Ok tt -> rest = []).
Proof.
  intros Haction.
  assert (Hrun :
    match result (handler fuel step env s) with
    | Ok _ => exists h, from_first_action (trace (handler fuel step env s)) = performs step h
    | Err _ => from_first_action (trace (handler fuel step env s)) = []
    end).
  { destruct step; try discriminate Haction; cbn [handler performs].
    - unfold click_element. run_handler; actions_done.
    - unfold click_element_in_parent. run_handler; actions_done.
    - unfold click_element_in_parent_with_child. run_handler; actions_done.
    - unfold clear_element. run_handler; actions_done.
    - unfold clear_element_in_parent. run_handler; actions_done.
    - unfold clear_element_in_parent_with_child. run_handler; actions_done.
    - unfold enter_into_element. run_handler; actions_done.
    - unfold enter_into_element_in_parent. run_handler; actions_done.
    - unfold enter_into_element_in_parent_with_child. run_handler; actions_done. }
  destruct (result (handler fuel step env s)) as [r|e].
  - destruct Hrun as [h Hh]. exists h, []. split.
    + rewrite Hh, app_nil_r. reflexivity.
    + reflexivity.
  - exists 0, (performs step 0). rewrite Hrun. split.
    + reflexivity.
    + discriminate.
Qed.

Lemma action_step_performs_witness :
  exists h rest,
    performs (EnterIntoElementInParent "Ann" "#x" ".card") h
      = from_first_action
          (trace (handler 4 (EnterIntoElementInParent "Ann" "#x" ".card")
                          Sample.env Sample.start)) ++ rest /\
    (result (handler 4 (EnterIntoElementInParent "Ann" "#x" ".card")
                     Sample.env Sample.start) = Ok tt -> rest = []).
Proof.
  apply (action_step_performs 4 (EnterIntoElementInParent "Ann" "#x" ".card")
           Sample.env Sample.start).
  reflexivity.
Defined.

Example enter_in_card_types :
  from_first_action
    (trace (handler 4 (EnterIntoElementInParent "Ann" "#x" ".card")
                    Sample.env Sample.start))
    = [EClick 4; EKeys select_all; EKeys (KString "Backspace"); EKeys (KString "Ann")].
Proof. vm_compute. reflexivity. Qed.

Ltac no_clickable_wait :=
  rewrite ?click_run, ?keys_run, ?setValue_run;
  cbn [trace app];
  repeat first
    [ apply List.Forall_nil
    | apply List.Forall_cons; [reflexivity|]
    | apply Forall_app; split
    | eapply Forall_impl; [eassumption|];
      let ev := fresh "ev" in
      let Hev := fresh "Hev" in
      intros ev Hev; destruct ev; try discriminate Hev; reflexivity ].

(** X21: only the click steps wait for clickability: the clear and
    enter-text steps never do, though the first thing they do to their
    target is click it. *)
Theorem clear_and_enter_never_wait_clickable fuel step env s :
  is_action_step step = true ->
  is_click_step step = false ->
  Forall (fun ev => is_clickable_wait ev = false) (trace (handler fuel step env s)).
Proof.
  intros Haction Hclick.
  destruct step; try discriminate Haction; try discriminate Hclick; cbn [handler].
  - unfold clear_element. run_handler; no_clickable_wait.
  - unfold clear_element_in_parent. run_handler; no_clickable_wait.
  - unfold clear_element_in_parent_with_child. run_handler; no_clickable_wait.
  - unfold enter_into_element. run_handler; no_clickable_wait.
  - unfold enter_into_element_in_parent. run_handler; no_clickable_wait.
  - unfold enter_into_element_in_parent_with_child. run_handler; no_clickable_wait.
Qed.

Lemma clear_and_enter_never_wait_clickable_witness :
  Forall (fun ev => is_clickable_wait ev = false)
         (trace (handler 4 (ClearElementInParentWithChild "#x" ".card" "#x")
                         Sample.env Sample.start)).
Proof.
  apply (clear_and_enter_never_wait_clickable
           4 (ClearElementInParentWithChild "#x" ".card" "#x") Sample.env Sample.start);
    reflexivity.
Defined.

(** * More on the scoped steps *)

(** Run a scoped step up to the answer of its ancestor resolution, which
    [Hres] gives: the wait for the child, when there is one, must have
    succeeded for the resolution to answer at all. *)
Ltac past_closest Hres :=
  let r1 := fresh "r" in
  let s1 := fresh "s" in
  let t1 := fresh "t" in
  let Hc := fresh "Hclosest" in
  match type of Hres with
  | context [closest ?fuel ?b ?p ?env ?s] =>
      destruct (closest fuel b p env s) as [r1 s1 t1] eqn:Hc
  end;
  cbn [result final trace] in Hres;
  injection Hres as -> -> <-;
  erewrite bind_ok by exact Hc;
  erewrite bind_ok by reflexivity.

Ltac past_resolution Hres :=
  let c0 := fresh "c" in
  let k0 := fresh "k" in
  let ok0 := fresh "ok" in
  let Hwait := fresh "Hwait" in
  first
    [ unfold resolve_from_target in Hres;
      erewrite bind_ok in Hres by apply find_run;
      erewrite bind_ok by apply find_run;
      past_closest Hres
    | unfold resolve_from_child in Hres;
      erewrite bind_ok in Hres by apply find_run;
      erewrite bind_ok by apply find_run;
      match goal with
      | |- context [method_on ?v _] => destruct v as [c0|]
      end;
      [ erewrite bind_ok in Hres by reflexivity;
        erewrite bind_ok by reflexivity;
        match goal with
        | |- context [bind (Driver.waitForDisplayed ?c ?t) _ ?env ?s] =>
            destruct (waitForDisplayed_run c t env s) as (k0 & ok0 & Hwait & _)
        end;
        destruct ok0;
        [ erewrite bind_ok in Hres by exact Hwait;
          erewrite bind_ok by exact Hwait;
          past_closest Hres
        | erewrite bind_err in Hres by exact Hwait;
          cbn [result final trace] in Hres; discriminate Hres ]
      | erewrite bind_err in Hres by reflexivity;
        cbn [result final trace] in Hres; discriminate Hres ] ].

Ltac locator_next :=
  first [ erewrite bind_ok by apply find_run
        | erewrite bind_ok by apply find_first_run ];
  cbn [result final trace scoped_locator];
  eexists _, _; split; [reflexivity|];
  rewrite <- ?app_assoc; cbn [app]; reflexivity.

(** X10: for every step with [in closest parent], when the ancestor
    resolution finds an ancestor [p], the very next call looks for the
    target below [p], on the page of that moment: [p.$(selector)] or
    [p.$$(selector)], never a search of the whole document. *)
Theorem scoped_locator_below_ancestor
    fuel step resolve parentSelector from env s p s' t :
  ancestor_resolution fuel step = Some (resolve, parentSelector, from) ->
  resolve env s = {| result := Ok (Some p); final := s'; trace := t |} ->
  exists ev rest,
    scoped_locator step p (timeline env (clock s')) = Some ev /\
    trace (handler fuel step env s) = t ++ ev :: rest.
Proof.
  intros Hscope Hres.
  destruct step; cbn [ancestor_resolution] in Hscope; try discriminate Hscope;
    injection Hscope as <- <- <-; cbn [handler].
  - unfold click_element_in_parent. past_resolution Hres. locator_next.
  - unfold click_element_in_parent_with_child. past_resolution Hres. locator_next.
  - unfold clear_element_in_parent. past_resolution Hres. locator_next.
  - unfold clear_element_in_parent_with_child. past_resolution Hres. locator_next.
  - unfold enter_into_element_in_parent. past_resolution Hres. locator_next.
  - unfold enter_into_element_in_parent_with_child. past_resolution Hres. locator_next.
  - unfold should_see_in_element_in_parent. past_resolution Hres. locator_next.
  - unfold should_see_in_element_in_parent_with_child. past_resolution Hres. locator_next.
Qed.

Lemma scoped_locator_below_ancestor_witness :
  exists ev rest,
    scoped_locator (ClickElementInParent "#x" ".card") 2
                   (timeline Sample.env
                      (clock (final (resolve_from_target 4 "#x" ".card"
                                       Sample.env Sample.start)))) = Some ev /\
    trace (handler 4 (ClickElementInParent "#x" ".card") Sample.env Sample.start)
      = trace (resolve_from_target 4 "#x" ".card" Sample.env Sample.start) ++ ev :: rest.
Proof.
  assert (Hres : resolve_from_target 4 "#x" ".card" Sample.env Sample.start =
            {| result := Ok (Some 2);
               final := final (resolve_from_target 4 "#x" ".card" Sample.env Sample.start);
               trace := trace (resolve_from_target 4 "#x" ".card" Sample.env Sample.start) |})
    by (vm_compute; reflexivity).
  exact (scoped_locator_below_ancestor
           4 (ClickElementInParent "#x" ".card")
           (resolve_from_target 4 "#x" ".card") ".card" "#x"
           Sample.env Sample.start 2 _ _ eq_refl Hres).
Defined.

Lemma msg_no_element_names selector parentSelector :
  names (msg_no_element selector parentSelector) selector /\
  names (msg_no_element selector parentSelector) parentSelector.
Proof. unfold msg_no_element. split; auto 6 with names. Qed.

Ltac target_missing Hempty :=
  erewrite bind_ok by apply find_first_run;
  cbn [final tick clock];
  rewrite Hempty;
  erewrite bind_err by reflexivity;
  cbn [result final trace];
  rewrite <- ?app_assoc; cbn [app]; reflexivity.

(** X11: for every step with [in closest parent ... with child], when the
    ancestor [p] is found but nothing below it matches the target selector,
    the step fails right after that lookup with the assertion's error,
    whose message names the target selector and the parent selector; the
    target is neither waited for nor acted on. *)
Theorem with_child_step_stops_without_target
    fuel step resolve parentSelector from target env s p s' t :
  ancestor_resolution fuel step = Some (resolve, parentSelector, from) ->
  with_child_target step = Some target ->
  resolve env s = {| result := Ok (Some p); final := s'; trace := t |} ->
  page_query (timeline env (clock s')) (Some p) target = [] ->
  handler fuel step env s =
    {| result := Err (AssertionError (msg_no_element target parentSelector));
       final := tick s';
       trace := t ++ [EFindAll (Some p) target []] |} /\
  names (msg_no_element target parentSelector) target /\
  names (msg_no_element target parentSelector) parentSelector.
Proof.
  intros Hscope Htarget Hres Hempty.
  split; [|apply msg_no_element_names].
  destruct step; cbn [with_child_target] in Htarget; try discriminate Htarget;
    injection Htarget as <-;
    cbn [ancestor_resolution] in Hscope; injection Hscope as <- <- <-; cbn [handler].
  - unfold click_element_in_parent_with_child. past_resolution Hres.
    target_missing Hempty.
  - unfold clear_element_in_parent_with_child. past_resolution Hres.
    target_missing Hempty.
  - unfold enter_into_element_in_parent_with_child. past_resolution Hres.
    target_missing Hempty.
  - unfold should_see_in_element_in_parent_with_child. past_resolution Hres.
    target_missing Hempty.
Qed.

Lemma with_child_step_stops_without_target_witness :
  result (handler 4 (ClickElementInParentWithChild "#gone" ".card" "#x")
                  Sample.env Sample.start)
    = Err (AssertionError (msg_no_element "#gone" ".card")).
Proof.
  assert (Hres : resolve_from_child 4 "#x" ".card" Sample.env Sample.start =
            {| result := Ok (Some 2);
               final := final (resolve_from_child 4 "#x" ".card" Sample.env Sample.start);
               trace := trace (resolve_from_child 4 "#x" ".card" Sample.env Sample.start) |})
    by (vm_compute; reflexivity).
  destruct (with_child_step_stops_without_target
              4 (ClickElementInParentWithChild "#gone" ".card" "#x")
              (resolve_from_child 4 "#x" ".card") ".card" "#x" "#gone"
              Sample.env Sample.start 2 _ _ eq_refl eq_refl Hres eq_refl) as [Hrun _].
  rewrite Hrun. reflexivity.
Defined.

(** * More on the verification steps *)

Lemma should_be_on_page_rechecks_witness :
  exists k,
    first_holds_at Sample.env
      (fun p => String.eqb (page_url p) "https://kraken.test/home")
      (clock Sample.start) k /\
    page_url (timeline Sample.env (S k + clock Sample.start)) = "https://kraken.test/home" /\
    trace (should_be_on_page "https://kraken.test/home" Sample.env Sample.start) =
      readings Sample.env (fun p => EGetUrl (page_url p)) (clock Sample.start) (S (S k)).
Proof.
  destruct (should_be_on_page_rechecks "https://kraken.test/home" Sample.env Sample.start)
    as [Hok _].
  apply Hok. vm_compute. reflexivity.
Defined.

Lemma should_see_in_attribute_rechecks_witness :
  exists k a,
    first_holds_at sample_env_labelled
      (fun p => attr_and_includes (page_attr p 4 "aria-label") "Save")
      (S (clock Sample.start)) k /\
    page_attr (timeline sample_env_labelled (S k + S (clock Sample.start))) 4 "aria-label"
      = Some a /\
    Js.includes a "Save" = true.
Proof.
  destruct (should_see_in_attribute_rechecks "Save" "aria-label" "#x" 4
              sample_env_labelled Sample.start eq_refl) as [Hok _].
  apply Hok. vm_compute. reflexivity.
Defined.

(** X13: once its element is found, the plain text step succeeds only
    when the text, read once more after the poll, still contains the
    expected text; when it does not, the step fails with the assertion's
    error. *)
Theorem should_see_in_element_rechecks fuel expectedText elementSelector h env s :
  head (page_query (timeline env (clock s)) None elementSelector) = Some h ->
  (result (handler fuel (ShouldSeeInElement expectedText elementSelector) env s) = Ok tt ->
   exists k,
     first_holds_at env (fun p => Js.includes (page_text p h) expectedText)
                    (S (clock s)) k /\
     Js.includes (page_text (timeline env (S k + S (clock s))) h) expectedText = true) /\
  (forall k,
     k <= polls env 10000 ->
     first_holds_at env (fun p => Js.includes (page_text p h) expectedText)
                    (S (clock s)) k ->
     Js.includes (page_text (timeline env (S k + S (clock s))) h) expectedText = false ->
     result (handler fuel (ShouldSeeInElement expectedText elementSelector) env s)
       = Err (AssertionError (msg_text_missing expectedText))).
Proof.
  intros Hfound. cbn [handler].
  rewrite should_see_in_element_tail.
  erewrite bind_ok by apply find_run. rewrite Hfound. cbn [result].
  apply (expect_text_rechecks h expectedText elementSelector env (tick s)).
Qed.

Lemma should_see_in_element_rechecks_witness :
  exists k,
    first_holds_at Sample.env (fun p => Js.includes (page_text p 4) "Saved")
                   (S (clock Sample.start)) k /\
    Js.includes (page_text (timeline Sample.env (S k + S (clock Sample.start))) 4) "Saved"
      = true.
Proof.
  destruct (should_see_in_element_rechecks 0 "Saved" "#x" 4 Sample.env Sample.start eq_refl)
    as [Hok _].
  apply Hok. vm_compute. reflexivity.
Defined.

(** ** Reading only *)

Lemma readings_quiet env ev c k :
  (forall p, is_action (ev p) = false) ->
  Forall (fun e => is_action e = false) (readings env ev c k).
Proof.
  intros Hev. unfold readings. apply Forall_forall. intros e He.
  apply list_elem_of_In, in_map_iff in He as (i & <- & _). apply Hev.
Qed.

Lemma expect_text_null_run expectedText elementSelector env s :
  expect_text None expectedText elementSelector env s =
    {| result := Err (TypeError "Cannot read properties of null (reading 'getText')");
       final := s; trace := [] |}.
Proof.
  unfold expect_text.
  erewrite bind_err; [reflexivity|].
  apply waitUntil_cond_fails. reflexivity.
Qed.

Lemma expect_text_quiet target expectedText elementSelector env s :
  Forall (fun e => is_action e = false)
         (trace (expect_text target expectedText elementSelector env s)).
Proof.
  destruct target as [h|].
  - destruct (expect_text_run h expectedText elementSelector env s)
      as [(k & _ & _ & _ & Hrun)|[_ Hrun]]; rewrite Hrun; cbn [trace].
    + apply Forall_app. split; [|constructor; [reflexivity|constructor]].
      apply readings_quiet. reflexivity.
    + apply readings_quiet. reflexivity.
  - rewrite expect_text_null_run. constructor.
Qed.

Lemma should_see_in_attribute_quiet expectedValue attributeName selector env s :
  Forall (fun e => is_action e = false)
         (trace (should_see_in_attribute expectedValue attributeName selector env s)).
Proof.
  destruct (head (page_query (timeline env (clock s)) None selector)) as [h|] eqn:Hfound.
  - destruct (should_see_in_attribute_run expectedValue attributeName selector h env s Hfound)
      as [(k & _ & _ & _ & Hrun)|[_ Hrun]]; rewrite Hrun; cbn [trace].
    + constructor; [reflexivity|].
      apply Forall_app. split; [|constructor; [reflexivity|constructor]].
      apply readings_quiet. reflexivity.
    + constructor; [reflexivity|]. apply readings_quiet. reflexivity.
  - unfold should_see_in_attribute.
    erewrite bind_ok by apply find_run. rewrite Hfound.
    erewrite bind_err by (apply waitUntil_cond_fails; reflexivity).
    cbn [trace app]. constructor; [reflexivity|constructor].
Qed.

Ltac quiet_trace :=
  cbn [trace app];
  repeat first
    [ apply List.Forall_nil
    | apply expect_text_quiet
    | apply List.Forall_cons; [reflexivity|]
    | apply Forall_app; split
    | eapply Forall_impl; [eassumption|];
      let ev := fresh "ev" in
      let Hev := fresh "Hev" in
      intros ev Hev; destruct ev; try discriminate Hev; reflexivity ].

(** X15: the verification steps only read: whatever the page does and
    however the step ends, its trace has no click, no keys and no value
    set. *)
Theorem verification_steps_only_read fuel step expected target env s :
  polling_target step = Some (expected, target) ->
  Forall (fun ev => is_action ev = false) (trace (handler fuel step env s)).
Proof.
  intros Htarget.
  destruct step; try discriminate Htarget; cbn [handler].
  - destruct (should_be_on_page_run expectedUrl env s)
      as [(k & _ & _ & _ & Hrun)|[_ Hrun]]; rewrite Hrun; cbn [trace];
      apply readings_quiet; reflexivity.
  - rewrite should_see_in_element_tail. run_handler; quiet_trace.
  - rewrite should_see_in_element_in_parent_tail. run_handler; quiet_trace.
  - rewrite should_see_in_element_in_parent_with_child_tail. run_handler; quiet_trace.
  - apply should_see_in_attribute_quiet.
Qed.

Lemma verification_steps_only_read_witness :
  Forall (fun ev => is_action ev = false)
         (trace (handler 4 (ShouldSeeInElementInParent "Saved" "#x" ".card")
                         Sample.env Sample.start)).
Proof.
  apply (verification_steps_only_read 4 (ShouldSeeInElementInParent "Saved" "#x" ".card")
           "Saved" "#x" Sample.env Sample.start).
  reflexivity.
Defined.

(** ** How much is read *)

(** X16: the URL step reads the URL between once and [polls + 2] times
    and does nothing else; each reading takes one tick; it cannot succeed
    on fewer than two readings (the poll's and the one after it); and when
    the URL is the expected one from the start, it reads exactly twice. *)
Theorem should_be_on_page_reads expectedUrl env s :
  exists n,
    1 <= n <= polls env 10000 + 2 /\
    trace (should_be_on_page expectedUrl env s)
      = readings env (fun p => EGetUrl (page_url p)) (clock s) n /\
    clock (final (should_be_on_page expectedUrl env s)) = n + clock s /\
    (result (should_be_on_page expectedUrl env s) = Ok tt -> 2 <= n) /\
    (page_url (timeline env (clock s)) = expectedUrl -> n = 2).
Proof.
  destruct (should_be_on_page_run expectedUrl env s)
    as [(k & Hk & Hbefore & Hat & Hrun)|[Hnever Hrun]]; rewrite Hrun;
    cbn [result final trace ticks clock].
  - exists (S (S k)). split; [lia|]. split; [reflexivity|]. split; [reflexivity|].
    split; [intros _; lia|].
    intros Hnow. destruct k as [|k]; [reflexivity|].
    specialize (Hbefore 0 ltac:(lia)). cbn [Nat.add] in Hbefore.
    rewrite Hnow, String.eqb_refl in Hbefore. discriminate Hbefore.
  - exists (S (polls env 10000)). split; [lia|]. split; [reflexivity|].
    split; [reflexivity|]. split; [discriminate|].
    intros Hnow. specialize (Hnever 0 ltac:(lia)). cbn [Nat.add] in Hnever.
    rewrite Hnow, String.eqb_refl in Hnever. discriminate Hnever.
Qed.

(** ** Empty values *)

Lemma includes_empty_needle t : Js.includes t EmptyString = true.
Proof. destruct t; cbn [Js.includes]; rewrite prefix_nil; reflexivity. Qed.

(** X17: every string contains the empty string, so the plain text step
    with an empty expected text succeeds on any element it finds, after
    reading its text twice. *)
Theorem should_see_empty_text_passes fuel elementSelector h env s :
  head (page_query (timeline env (clock s)) None elementSelector) = Some h ->
  handler fuel (ShouldSeeInElement EmptyString elementSelector) env s =
    {| result := Ok tt;
       final := ticks 3 s;
       trace :=
         [ EFind None elementSelector (Some h);
           EGetText h (page_text (timeline env (S (clock s))) h);
           EGetText h (page_text (timeline env (S (S (clock s)))) h);
           EConsoleLog (msg_final_text (page_text (timeline env (S (S (clock s)))) h)) ] |}.
Proof.
  intros Hfound. cbn [handler].
  rewrite should_see_in_element_tail.
  erewrite bind_ok by apply find_run. rewrite Hfound.
  destruct (expect_text_run h EmptyString elementSelector env (tick s))
    as [(k & _ & Hbefore & _ & Hrun)|[Hnever _]].
  - destruct k as [|k].
    + rewrite Hrun. cbn [result final trace app tick clock Nat.add].
      rewrite includes_empty_needle. reflexivity.
    + specialize (Hbefore 0 ltac:(lia)).
      rewrite includes_empty_needle in Hbefore. discriminate Hbefore.
  - specialize (Hnever 0 ltac:(lia)).
    rewrite includes_empty_needle in Hnever. discriminate Hnever.
Qed.

Lemma should_see_empty_text_passes_witness :
  result (handler 0 (ShouldSeeInElement EmptyString "#name") Sample.env Sample.start)
    = Ok tt.
Proof.
  rewrite (should_see_empty_text_passes 0 "#name" 5 Sample.env Sample.start eq_refl).
  reflexivity.
Defined.

(** X18: an attribute that is absent or empty at every reading of the
    budget makes the attribute step time out, whatever value is expected,
    the empty string included: [attr && attr.includes(...)] is falsy for
    [null] and for the empty string. *)
Theorem empty_attribute_times_out fuel expectedValue attributeName selector h env s :
  head (page_query (timeline env (clock s)) None selector) = Some h ->
  (forall i, i <= polls env 10000 ->
     page_attr (timeline env (i + S (clock s))) h attributeName = None \/
     page_attr (timeline env (i + S (clock s))) h attributeName = Some EmptyString) ->
  result (handler fuel (ShouldSeeInAttribute expectedValue attributeName selector) env s)
    = Err (WaitUntilTimeout (msg_attr_timeout expectedValue attributeName selector)).
Proof.
  intros Hfound Hempty. cbn [handler].
  destruct (should_see_in_attribute_run expectedValue attributeName selector h env s Hfound)
    as [(k & Hk & _ & Hat & _)|[_ Hrun]].
  - destruct (Hempty k Hk) as [Hnone|Hnone]; rewrite Hnone in Hat; discriminate Hat.
  - rewrite Hrun. reflexivity.
Qed.

Lemma empty_attribute_times_out_witness :
  result (handler 0 (ShouldSeeInAttribute EmptyString "aria-label" "#x")
                  Sample.env Sample.start)
    = Err (WaitUntilTimeout (msg_attr_timeout EmptyString "aria-label" "#x")).
Proof.
  apply (empty_attribute_times_out 0 EmptyString "aria-label" "#x" 4
           Sample.env Sample.start eq_refl).
  intros i _. left. reflexivity.
Defined.

(** * More on the screenshot step *)

(** X19: when the screenshot step succeeds, the directory of the file
    exists afterwards and no directory has disappeared; when the directory
    was there, none is created and the directories are as they were; when
    it was missing, it is created by one call of [mkdirSync], made before
    the screenshot is saved; the screenshot is saved once, as the last
    driver call. *)
Theorem take_screenshot_creates_directory env s :
  result (take_screenshot env s) = Ok tt ->
  Path.dirname (screenshot_path env) ∈ dirs (final (take_screenshot env s)) /\
  (forall d, d ∈ dirs s -> d ∈ dirs (final (take_screenshot env s))) /\
  (Path.dirname (screenshot_path env) ∈ dirs s ->
   created_dirs (trace (take_screenshot env s)) = [] /\
   dirs (final (take_screenshot env s)) = dirs s) /\
  (Path.dirname (screenshot_path env) ∉ dirs s ->
   created_dirs (trace (take_screenshot env s)) = [Path.dirname (screenshot_path env)]) /\
  exists pre,
    trace (take_screenshot env s)
      = pre ++ [ ESaveScreenshot (screenshot_path env);
                 EConsoleLog ("Screenshot guardado: " +:+ screenshot_path env) ] /\
    saved_paths pre = [] /\
    created_dirs pre = created_dirs (trace (take_screenshot env s)).
Proof.
  intros _. rewrite take_screenshot_run.
  destruct (bool_decide (Path.dirname (screenshot_path env) ∈ dirs s)) eqn:Hd;
    cbn [result final trace dirs tick].
  - apply bool_decide_eq_true_1 in Hd.
    split; [exact Hd|]. split; [auto|].
    split; [intros _; split; reflexivity|].
    split; [intros Hno; contradiction|].
    exists [EExistsSync (Path.dirname (screenshot_path env)) true].
    repeat split.
  - apply bool_decide_eq_false_1 in Hd.
    split; [apply made_dirs_self|].
    split; [intros d Hin; apply elem_of_union; right; exact Hin|].
    split; [intros Hin; contradiction|].
    split; [intros _; reflexivity|].
    exists [ EExistsSync (Path.dirname (screenshot_path env)) false;
             EMkdirSync (Path.dirname (screenshot_path env));
             EConsoleLog ("Carpeta creada: " +:+ Path.dirname (screenshot_path env)) ].
    repeat split.
Qed.

(** With [VERSION=v5] and no directory yet, [screenshots/v5] is created,
    and [screenshots] with it. *)
Lemma take_screenshot_creates_directory_witness :
  result (take_screenshot Sample.env_v5 Sample.start) = Ok tt /\
  "screenshots/v5" ∈ dirs (final (take_screenshot Sample.env_v5 Sample.start)) /\
  "screenshots" ∈ dirs (final (take_screenshot Sample.env_v5 Sample.start)) /\
  created_dirs (trace (take_screenshot Sample.env_v5 Sample.start)) = ["screenshots/v5"].
Proof.
  assert (Hok : result (take_screenshot Sample.env_v5 Sample.start) = Ok tt)
    by (vm_compute; reflexivity).
  destruct (take_screenshot_creates_directory Sample.env_v5 Sample.start Hok)
    as (Hdir & _ & _ & Hmissing & _).
  split; [exact Hok|]. split; [exact Hdir|].
  split; [vm_compute; reflexivity|].
  apply Hmissing. apply not_elem_of_empty.
Defined.

Lemma first_split_before_dot n rest :
  has_dot n = false ->
  Js.first (Js.split "." (n +:+ String "." rest)) = n.
Proof.
  induction n as [|c n IH]; intros Hn.
  - change (EmptyString +:+ String "." rest) with (String "." rest).
    rewrite first_split_cons. reflexivity.
  - cbn [has_dot] in Hn. apply orb_false_iff in Hn as [Hc Hn].
    change (String c n +:+ String "." rest) with (String c (n +:+ String "." rest)).
    rewrite first_split_cons, Hc, (IH Hn). reflexivity.
Qed.



(** ** The directory of the screenshot *)

Lemma chars_append a b : Path.chars (a +:+ b) = Path.chars a ++ Path.chars b.
Proof.
  induction a as [|c a IH]; [reflexivity|].
  change (String c a +:+ b) with (String c (a +:+ b)).
  cbn [Path.chars app]. rewrite IH. reflexivity.
Qed.

Lemma chars_of_chars l : Path.chars (Path.of_chars l) = l.
Proof. induction l as [|c l IH]; [reflexivity|]. cbn. rewrite IH. reflexivity. Qed.

Lemma of_chars_chars s : Path.of_chars (Path.chars s) = s.
Proof. induction s as [|c s IH]; [reflexivity|]. cbn. rewrite IH. reflexivity. Qed.

Lemma take_while_all f l : Forall (fun c => f c = true) (Path.take_while f l).
Proof.
  induction l as [|c l IH]; cbn [Path.take_while]; [constructor|].
  destruct (f c) eqn:Hc; [constructor; assumption|constructor].
Qed.

(** A base name has no slash. *)
Lemma basename_no_slash p : no_slash (Path.basename p).
Proof.
  unfold no_slash, Path.basename. rewrite chars_of_chars.
  apply Forall_rev.
  eapply Forall_impl; [apply take_while_all|].
  intros c Hc. cbn beta in Hc. apply negb_true_iff in Hc. exact Hc.
Qed.

(** Nor has the first piece of a split of a string that has none. *)
Lemma first_split_no_slash sep s :
  no_slash s -> no_slash (Js.first (Js.split sep s)).
Proof.
  unfold no_slash.
  induction s as [|c r IH]; intros Hs; [constructor|].
  rewrite first_split_cons. cbn [Path.chars] in Hs.
  inversion Hs as [|? ? Hc Hr]; subst.
  destruct (Ascii.eqb c sep); [constructor|].
  cbn [Path.chars]. constructor; auto.
Qed.

(** The scan of [dirname] runs over a last segment without slashes. *)
Lemma dirname_scan_segment seg :
  forall matched rest,
    Forall (fun c => Path.is_slash c = false) seg ->
    2 <= length rest ->
    Path.dirname_scan (seg ++ rest) matched =
      Path.dirname_scan rest (match seg with [] => matched | _ => false end).
Proof.
  induction seg as [|c seg IH]; intros matched rest Hseg Hrest; [reflexivity|].
  inversion Hseg as [|? ? Hc Hseg']; subst.
  cbn [app Path.dirname_scan].
  destruct (seg ++ rest) as [|x l] eqn:Hl.
  { destruct seg; cbn in Hl; [subst; cbn in Hrest; lia|discriminate]. }
  rewrite Hc. rewrite <- Hl. rewrite (IH false rest Hseg' Hrest).
  destruct seg; reflexivity.
Qed.

Lemma dirname_of_segment dir name :
  no_slash name ->
  name <> EmptyString ->
  dir <> EmptyString ->
  Path.is_slash (match Path.chars dir with c :: _ => c | [] => Path.slash end) = false ->
  Path.dirname (dir +:+ "/" +:+ name) = dir.
Proof.
  intros Hname Hne Hdir Hfirst.
  unfold Path.dirname.
  rewrite !chars_append. change (Path.chars "/") with [Path.slash].
  destruct (Path.chars dir) as [|c0 cs] eqn:Hchars.
  { destruct dir; [contradiction|discriminate]. }
  cbn [app].
  replace (rev (c0 :: cs ++ Path.slash :: Path.chars name))
    with (rev (Path.chars name) ++ Path.slash :: rev (c0 :: cs)).
  2: { cbn [rev]. rewrite rev_app_distr. cbn [rev]. rewrite <- !app_assoc. reflexivity. }
  rewrite dirname_scan_segment.
  - destruct (rev (Path.chars name)) as [|x l] eqn:Hrev.
    { apply (f_equal (@rev ascii)) in Hrev. rewrite rev_involutive in Hrev.
      destruct name; [contradiction|discriminate]. }
    destruct (rev (c0 :: cs)) as [|y l'] eqn:Hl.
    { apply (f_equal (@length ascii)) in Hl. rewrite length_rev in Hl. discriminate Hl. }
    cbn [Path.dirname_scan].
    change (Path.is_slash Path.slash) with true. cbn match.
    rewrite Hfirst. cbn [andb]. rewrite <- Hl.
    rewrite rev_involutive, <- Hchars. apply of_chars_chars.
  - apply Forall_rev. exact Hname.
  - cbn [length]. rewrite length_rev. cbn [length]. lia.
Qed.

